(** * Webshot: the worker pool, the response cache and the request handler

    A shallow embedding of [core/shotlink.go].  Package-level variables
    become the fields of one [Server] record that every function takes and
    returns; pointers to [chromeWorker] become indices into a heap; the
    buffered channel [workerPool] becomes the FIFO list of the pointers it
    holds together with its capacity; [select] becomes a function of the
    case that is taken, defined only where that case can proceed.  Times
    and durations are [Z] nanoseconds, as in Go's [time] package. *)

From Stdlib Require Import ZArith Lia Strings.Byte Strings.String Strings.Ascii.
From stdpp Require Import base gmap list strings pretty.

Open Scope Z_scope.

(** ** Machine integers and durations *)

(** Go's [int], [int64] and [time.Duration] are 64-bit and wrap around. *)
Definition minInt64 : Z := - 2 ^ 63.
Definition maxInt64 : Z := 2 ^ 63 - 1.
Definition wrap64 (x : Z) : Z := (x + 2 ^ 63) mod 2 ^ 64 - 2 ^ 63.
Definition add64 (x y : Z) : Z := wrap64 (x + y).
Definition mul64 (x y : Z) : Z := wrap64 (x * y).

Definition Second : Z := 1000000000.
Definition Minute : Z := 60 * Second.

(** [time.Time.Sub] and [time.Since]: the difference of two instants,
    saturated to the range of a [Duration]. *)
Definition timeSub (t u : Z) : Z :=
  Z.max minInt64 (Z.min maxInt64 (t - u)).

(** ** [Duration.Seconds] in floating point *)

(** The positive rational [n / d] scaled by [2 ^ (- e)]: its numerator and
    its denominator. *)
Definition scaledNum (n e : Z) : Z := if decide (0 ≤ e) then n else n * 2 ^ (- e).
Definition scaledDen (d e : Z) : Z := if decide (0 ≤ e) then d * 2 ^ e else d.

(** The exponent [e] with [2 ^ 52 ≤ n / d / 2 ^ e < 2 ^ 53]. *)
Definition exponent53 (n d : Z) : Z :=
  let e0 := Z.log2 n - Z.log2 d - 52 in
  let q := scaledNum n e0 / scaledDen d e0 in
  if decide (q < 2 ^ 52) then e0 - 1
  else if decide (2 ^ 53 ≤ q) then e0 + 1 else e0.

(** [n / d / 2 ^ e] rounded to the nearest integer, ties to even. *)
Definition mantissa53 (n d e : Z) : Z :=
  let num := scaledNum n e in
  let den := scaledDen d e in
  let m := num / den in
  let r := num mod den in
  if decide (2 * r < den) then m
  else if decide (den < 2 * r) then m + 1
  else if Z.even m then m else m + 1.

(** The [float64] nearest to the positive rational [n / d] (IEEE 754,
    53 bits of precision, round to nearest, ties to even): mantissa and
    exponent, the value being [m * 2 ^ e]. *)
Definition round53 (n d : Z) : Z * Z :=
  if decide (n = 0) then (0, 0)
  else let e := exponent53 n d in (mantissa53 n d e, e).

(** [int(f)] for a [float64] [f = m * 2 ^ e] that is not negative: its
    integer part. *)
Definition truncate (m e : Z) : Z :=
  if decide (0 ≤ e) then m * 2 ^ e else m / 2 ^ (- e).

(** [int(d.Seconds())].  [Seconds] is
    [float64(d / Second) + float64(d % Second) / 1e9]: the two conversions
    are exact, the quotient is rounded to a [float64] and so is the sum;
    [int] then drops the fraction.  Signs are carried apart from the
    magnitudes, which rounding treats alike. *)
Definition durationSeconds (d : Z) : Z :=
  let sec := Z.quot d Second in
  let nsec := Z.rem d Second in
  let '(m, e) := round53 (Z.abs nsec) Second in
  let k := Z.max 0 (- e) in
  let num := sec * 2 ^ k + Z.sgn nsec * m * 2 ^ Z.max 0 e in
  let '(m', e') := round53 (Z.abs num) (2 ^ k) in
  Z.sgn num * truncate m' e'.

(** ** Workers *)

(** A [*chromeWorker]: an index into the heap of allocated workers. *)
Abbreviation ptr := nat (only parsing).

(** [allocCtx] and [cancel] are kept as the number of times [cancel] has
    been called: the allocator context is alive while that is zero.  The
    mutex [mu] guards [captureScreenshot] only and is held by the one
    request that checked the worker out. *)
Record chromeWorker := {
  id : nat;
  cancelCalls : nat;
  busy : bool;
  lastUsed : Z
}.

Definition set_busy (b : bool) (w : chromeWorker) : chromeWorker :=
  {| id := id w; cancelCalls := cancelCalls w; busy := b; lastUsed := lastUsed w |}.
Definition set_lastUsed (t : Z) (w : chromeWorker) : chromeWorker :=
  {| id := id w; cancelCalls := cancelCalls w; busy := busy w; lastUsed := t |}.
Definition call_cancel (w : chromeWorker) : chromeWorker :=
  {| id := id w; cancelCalls := S (cancelCalls w); busy := busy w; lastUsed := lastUsed w |}.

Record cacheEntry := {
  data : list byte;
  timestamp : Z
}.

(** Errors that the handler tells apart.  [DeadlineExceeded] and
    [Canceled] are the sentinels of package [context]. *)
Inductive error :=
| ErrNoWorker          (* "no worker available within timeout" *)
| ErrShuttingDown      (* "service is shutting down" *)
| DeadlineExceeded
| Canceled
| ErrOther (msg : string).

Global Instance error_eq_dec : EqDecision error.
Proof. solve_decision. Defined.

(** Calls into the pool and the cache, recorded in the order they are made. *)
Inductive call :=
| CallGetWorker
| CallReleaseWorker (worker : option ptr)
| CallCacheLoad (key : string)
| CallCacheStore (key : string)
| CallCapture (worker : ptr).

Global Instance call_eq_dec : EqDecision call.
Proof. solve_decision. Defined.

(** ** The package state *)

Record Server := {
  (* worker pool *)
  heap : list chromeWorker;
  workerPool : list ptr;
  workerPoolCap : nat;
  maxWorkers : Z;
  workers : list (option ptr);
  shutdownOnce : bool;
  shutdownChan : bool;            (* true once the channel is closed *)
  (* metrics *)
  activeRequests : Z;
  totalRequests : Z;
  failedRequests : Z;
  timeoutRequests : Z;
  (* cache *)
  screenCache : gmap string cacheEntry;
  cacheEnabled : bool;
  cacheDuration : Z;
  (* history *)
  calls : list call
}.

Definition with_pool (h : list chromeWorker) (q : list ptr) (s : Server) : Server :=
  {| heap := h; workerPool := q; workerPoolCap := workerPoolCap s;
     maxWorkers := maxWorkers s; workers := workers s;
     shutdownOnce := shutdownOnce s; shutdownChan := shutdownChan s;
     activeRequests := activeRequests s; totalRequests := totalRequests s;
     failedRequests := failedRequests s; timeoutRequests := timeoutRequests s;
     screenCache := screenCache s; cacheEnabled := cacheEnabled s;
     cacheDuration := cacheDuration s; calls := calls s |}.

Definition with_registry (c : nat) (ws : list (option ptr)) (s : Server) : Server :=
  {| heap := heap s; workerPool := workerPool s; workerPoolCap := c;
     maxWorkers := maxWorkers s; workers := ws;
     shutdownOnce := shutdownOnce s; shutdownChan := shutdownChan s;
     activeRequests := activeRequests s; totalRequests := totalRequests s;
     failedRequests := failedRequests s; timeoutRequests := timeoutRequests s;
     screenCache := screenCache s; cacheEnabled := cacheEnabled s;
     cacheDuration := cacheDuration s; calls := calls s |}.

Definition with_shutdown (once closed : bool) (s : Server) : Server :=
  {| heap := heap s; workerPool := workerPool s; workerPoolCap := workerPoolCap s;
     maxWorkers := maxWorkers s; workers := workers s;
     shutdownOnce := once; shutdownChan := closed;
     activeRequests := activeRequests s; totalRequests := totalRequests s;
     failedRequests := failedRequests s; timeoutRequests := timeoutRequests s;
     screenCache := screenCache s; cacheEnabled := cacheEnabled s;
     cacheDuration := cacheDuration s; calls := calls s |}.

Definition with_metrics (a t f o : Z) (s : Server) : Server :=
  {| heap := heap s; workerPool := workerPool s; workerPoolCap := workerPoolCap s;
     maxWorkers := maxWorkers s; workers := workers s;
     shutdownOnce := shutdownOnce s; shutdownChan := shutdownChan s;
     activeRequests := a; totalRequests := t;
     failedRequests := f; timeoutRequests := o;
     screenCache := screenCache s; cacheEnabled := cacheEnabled s;
     cacheDuration := cacheDuration s; calls := calls s |}.

Definition with_screenCache (m : gmap string cacheEntry) (s : Server) : Server :=
  {| heap := heap s; workerPool := workerPool s; workerPoolCap := workerPoolCap s;
     maxWorkers := maxWorkers s; workers := workers s;
     shutdownOnce := shutdownOnce s; shutdownChan := shutdownChan s;
     activeRequests := activeRequests s; totalRequests := totalRequests s;
     failedRequests := failedRequests s; timeoutRequests := timeoutRequests s;
     screenCache := m; cacheEnabled := cacheEnabled s;
     cacheDuration := cacheDuration s; calls := calls s |}.

Definition record_call (c : call) (s : Server) : Server :=
  {| heap := heap s; workerPool := workerPool s; workerPoolCap := workerPoolCap s;
     maxWorkers := maxWorkers s; workers := workers s;
     shutdownOnce := shutdownOnce s; shutdownChan := shutdownChan s;
     activeRequests := activeRequests s; totalRequests := totalRequests s;
     failedRequests := failedRequests s; timeoutRequests := timeoutRequests s;
     screenCache := screenCache s; cacheEnabled := cacheEnabled s;
     cacheDuration := cacheDuration s; calls := calls s ++ [c] |}.

(** [atomic.AddInt64] on each of the four counters. *)
Definition add_activeRequests (d : Z) (s : Server) : Server :=
  with_metrics (add64 (activeRequests s) d) (totalRequests s)
               (failedRequests s) (timeoutRequests s) s.
Definition add_totalRequests (d : Z) (s : Server) : Server :=
  with_metrics (activeRequests s) (add64 (totalRequests s) d)
               (failedRequests s) (timeoutRequests s) s.
Definition add_failedRequests (d : Z) (s : Server) : Server :=
  with_metrics (activeRequests s) (totalRequests s)
               (add64 (failedRequests s) d) (timeoutRequests s) s.
Definition add_timeoutRequests (d : Z) (s : Server) : Server :=
  with_metrics (activeRequests s) (totalRequests s)
               (failedRequests s) (add64 (timeoutRequests s) d) s.

(** ** The worker pool *)

(** [createWorker]: allocates a worker whose context is alive.  The Chrome
    flags configure the external allocator and carry no state here. *)
Definition createWorker (now : Z) (i : nat) : chromeWorker :=
  {| id := i; cancelCalls := 0; busy := false; lastUsed := now |}.

(** The body of the loop of [initializeWorkerPool] for index [i]:
    [worker := createWorker(i); workers[i] = worker; workerPool <- worker].
    The send cannot block: the channel was made with room for every worker. *)
Definition initWorker (clock : nat → Z) (i : nat) (s : Server) : Server :=
  let p := length (heap s) in
  with_registry (workerPoolCap s) (<[i := Some p]> (workers s))
    (with_pool (heap s ++ [createWorker (clock i) i]) (workerPool s ++ [p]) s).

Fixpoint initLoop (clock : nat → Z) (i n : nat) (s : Server) : Server :=
  match n with
  | O => s
  | S n' => initLoop clock (S i) n' (initWorker clock i s)
  end.

Definition initializeWorkerPool (clock : nat → Z) (s : Server) : Server :=
  let n := Z.to_nat (maxWorkers s) in
  initLoop clock 0 n (with_registry n (replicate n None) (with_pool (heap s) [] s)).

(** The three cases of the [select] in [getWorker]. *)
Inductive selectCase := RecvWorker | TimerFired | ShutdownClosed.

(** [getWorker timeout], resolved by case [pick] after the caller has been
    parked for [elapsed] nanoseconds, in the state of that moment.  [None]
    means that [pick] cannot proceed there: the channel is empty, the timer
    has not fired, or [shutdownChan] is still open.  Go chooses among the
    cases that can proceed without any priority. *)
Definition getWorker (pick : selectCase) (timeout elapsed : Z) (s : Server)
  : option (Server * (ptr + error)) :=
  let s := record_call CallGetWorker s in
  match pick with
  | RecvWorker =>
      match workerPool s with
      | worker :: rest =>
          Some (with_pool (alter (set_busy true) worker (heap s)) rest s, inl worker)
      | [] => None
      end
  | TimerFired =>
      if decide (timeout ≤ elapsed) then Some (s, inr ErrNoWorker) else None
  | ShutdownClosed =>
      if shutdownChan s then Some (s, inr ErrShuttingDown) else None
  end.

(** [releaseWorker]: the send is tried without blocking; when the channel
    is full the worker is dropped with a warning. *)
Definition releaseWorker (now : Z) (worker : option ptr) (s : Server) : Server :=
  let s := record_call (CallReleaseWorker worker) s in
  match worker with
  | Some p =>
      let h := alter (set_lastUsed now) p (alter (set_busy false) p (heap s)) in
      if decide (length (workerPool s) < workerPoolCap s)%nat
      then with_pool h (workerPool s ++ [p]) s
      else with_pool h (workerPool s) s
  | None => s
  end.

(** [worker.cancel()] for one entry of the registry, under the nil check. *)
Definition cancelWorker (h : list chromeWorker) (worker : option ptr) : list chromeWorker :=
  match worker with
  | Some p => alter call_cancel p h
  | None => h
  end.

(** [Shutdown]: the closure runs under [shutdownOnce], so only the first
    call closes the channel and cancels the workers. *)
Definition Shutdown (s : Server) : Server :=
  if shutdownOnce s then s
  else
    let s := with_shutdown true true s in
    with_pool (foldl cancelWorker (heap s) (workers s)) (workerPool s) s.

(** ** Strings: [strconv.Atoi] and [fmt.Sprintf] *)

(** A Go string is a sequence of bytes; so is a [string] here. *)
Definition byteOf (c : ascii) : Z := Z.of_N (N_of_ascii c).
Definition charOf (b : Z) : ascii := ascii_of_N (Z.to_N b).

Definition bytesOf (s : string) : list Z := byteOf <$> list_ascii_of_string s.

Definition digitValue (c : ascii) : option Z :=
  let n := byteOf c in
  if decide (48 ≤ n ≤ 57) then Some (n - 48) else None.

Fixpoint parseDigits (acc : Z) (s : string) : option Z :=
  match s with
  | EmptyString => Some acc
  | String c rest =>
      match digitValue c with
      | Some d => parseDigits (acc * 10 + d) rest
      | None => None
      end
  end.

(** [strconv.Atoi]: an optional sign, then one or more decimal digits, the
    value within the range of [int]; anything else is an error. *)
Definition Atoi (s : string) : option Z :=
  match s with
  | EmptyString => None
  | String c rest =>
      let neg := bool_decide (c = "-"%char) in
      let signed := neg || bool_decide (c = "+"%char) in
      let digits := if signed then rest else s in
      match digits with
      | EmptyString => None
      | _ =>
          match parseDigits 0 digits with
          | Some n =>
              let v := if neg then - n else n in
              if decide (minInt64 ≤ v ≤ maxInt64) then Some v else None
          | None => None
          end
      end
  end.

(** [fmt.Sprintf("%s:%dx%d", url, width, height)]. *)
Definition cacheKeyText (url : string) (width height : Z) : string :=
  url +:+ ":" +:+ pretty width +:+ "x" +:+ pretty height.

(** [fmt.Sprintf("public, max-age=%d", int(cacheDuration.Seconds()))]. *)
Definition cacheControl (d : Z) : string :=
  "public, max-age=" +:+ pretty (durationSeconds d).

(** ** MD5 ([crypto/md5], RFC 1321) and [encoding/hex] *)

Module MD5.

Definition add32 (a b : Z) : Z := (a + b) mod 2 ^ 32.
Definition not32 (a : Z) : Z := Z.lxor a (2 ^ 32 - 1).
Definition rotl32 (x n : Z) : Z :=
  Z.lor (Z.shiftl x n mod 2 ^ 32) (Z.shiftr x (32 - n)).

Definition shifts : list Z :=
  [7; 12; 17; 22; 7; 12; 17; 22; 7; 12; 17; 22; 7; 12; 17; 22;
   5; 9; 14; 20; 5; 9; 14; 20; 5; 9; 14; 20; 5; 9; 14; 20;
   4; 11; 16; 23; 4; 11; 16; 23; 4; 11; 16; 23; 4; 11; 16; 23;
   6; 10; 15; 21; 6; 10; 15; 21; 6; 10; 15; 21; 6; 10; 15; 21].

(** [floor (2^32 * abs (sin (i + 1)))] for [i] from 0 to 63. *)
Definition sines : list Z :=
  [3614090360; 3905402710; 606105819; 3250441966; 4118548399; 1200080426;
   2821735955; 4249261313; 1770035416; 2336552879; 4294925233; 2304563134;
   1804603682; 4254626195; 2792965006; 1236535329; 4129170786; 3225465664;
   643717713; 3921069994; 3593408605; 38016083; 3634488961; 3889429448;
   568446438; 3275163606; 4107603335; 1163531501; 2850285829; 4243563512;
   1735328473; 2368359562; 4294588738; 2272392833; 1839030562; 4259657740;
   2763975236; 1272893353; 4139469664; 3200236656; 681279174; 3936430074;
   3572445317; 76029189; 3654602809; 3873151461; 530742520; 3299628645;
   4096336452; 1126891415; 2878612391; 4237533241; 1700485571; 2399980690;
   4293915773; 2240044497; 1873313359; 4264355552; 2734768916; 1309151649;
   4149444226; 3174756917; 718787259; 3951481745].

Definition state : Type := Z * Z * Z * Z.

Definition init : state := (1732584193, 4023233417, 2562383102, 271733878).

(** Step [i] of the 64 steps on one block of sixteen words [m]. *)
Definition step (m : list Z) (st : state) (i : nat) : state :=
  let '(a, b, c, d) := st in
  let '(f, g) :=
    if decide (i < 16)%nat then
      (Z.lor (Z.land b c) (Z.land (not32 b) d), i)
    else if decide (i < 32)%nat then
      (Z.lor (Z.land d b) (Z.land (not32 d) c), (5 * i + 1) mod 16)%nat
    else if decide (i < 48)%nat then
      (Z.lxor (Z.lxor b c) d, (3 * i + 5) mod 16)%nat
    else
      (Z.lxor c (Z.lor b (not32 d)), (7 * i) mod 16)%nat in
  let x := add32 (add32 (add32 f a) (nth i sines 0)) (nth g m 0) in
  (d, add32 b (rotl32 x (nth i shifts 0)), b, c).

(** Sixteen little-endian words from 64 bytes. *)
Fixpoint wordsOf (n : nat) (bs : list Z) : list Z :=
  match n, bs with
  | S n', b0 :: b1 :: b2 :: b3 :: rest =>
      (b0 + 256 * b1 + 65536 * b2 + 16777216 * b3) :: wordsOf n' rest
  | _, _ => []
  end.

Definition block (st : state) (bs : list Z) : state :=
  let '(a, b, c, d) := st in
  let '(a', b', c', d') := foldl (step (wordsOf 16 bs)) st (seq 0 64) in
  (add32 a a', add32 b b', add32 c c', add32 d d').

Fixpoint blocks (n : nat) (st : state) (bs : list Z) : state :=
  match n with
  | O => st
  | S n' => blocks n' (block st (take 64 bs)) (drop 64 bs)
  end.

Definition le_bytes (n : nat) (x : Z) : list Z :=
  (λ i : nat, Z.shiftr x (8 * Z.of_nat i) mod 256) <$> seq 0 n.

(** The message, a 1 bit, zeros up to 56 modulo 64 bytes, then the
    length in bits as 64 little-endian bits. *)
Definition pad (msg : list Z) : list Z :=
  let len := Z.of_nat (length msg) in
  let zeros := Z.to_nat ((55 - len) mod 64) in
  msg ++ [128] ++ replicate zeros 0 ++ le_bytes 8 ((8 * len) mod 2 ^ 64).

Definition Sum (msg : list Z) : list Z :=
  let p := pad msg in
  let '(a, b, c, d) := blocks (length p / 64) init p in
  le_bytes 4 a ++ le_bytes 4 b ++ le_bytes 4 c ++ le_bytes 4 d.

End MD5.

Definition hexDigit (n : Z) : ascii :=
  if decide (n < 10) then charOf (48 + n) else charOf (87 + n).

(** [hex.EncodeToString]: two lower-case digits a byte. *)
Fixpoint EncodeToString (bs : list Z) : string :=
  match bs with
  | [] => EmptyString
  | b :: rest => String (hexDigit (b / 16)) (String (hexDigit (b mod 16)) (EncodeToString rest))
  end.

Definition getCacheKey (url : string) (width height : Z) : string :=
  EncodeToString (MD5.Sum (bytesOf (cacheKeyText url width height))).

(** ** The response cache *)

(** The lookup of [HandleScreenshot]: [screenCache.Load(cacheKey)], then
    [time.Since(entry.timestamp) < cacheDuration].  An entry that fails the
    test is left in the map. *)
Definition cacheGet (now : Z) (key : string) (s : Server) : option (list byte) :=
  match screenCache s !! key with
  | Some entry =>
      if decide (timeSub now (timestamp entry) < cacheDuration s)
      then Some (data entry) else None
  | None => None
  end.

(** [screenCache.Store(cacheKey, &cacheEntry{data: buf, timestamp: time.Now()})]. *)
Definition cachePut (now : Z) (key : string) (buf : list byte) (s : Server) : Server :=
  record_call (CallCacheStore key)
    (with_screenCache (<[key := {| data := buf; timestamp := now |}]> (screenCache s)) s).

(** One tick of [cleanupExpiredCache]: [Range] over the map, deleting the
    entries with [now.Sub(entry.timestamp) > cacheDuration]. *)
Definition expired (now ttl : Z) (kv : string * cacheEntry) : Prop :=
  timeSub now (timestamp kv.2) > ttl.

Global Instance expired_dec now ttl kv : Decision (expired now ttl kv).
Proof. unfold expired. apply _. Defined.

Definition sweepTick (now : Z) (s : Server) : Server :=
  if cacheEnabled s
  then with_screenCache (filter (λ kv, ¬ expired now (cacheDuration s) kv) (screenCache s)) s
  else s.

(** ** Requests and responses *)

(** [r.URL.Query()]: every key with the list of its values. *)
Record Request := { query : gmap string (list string) }.

(** [url.Values.Get]: the first value of the key, or the empty string. *)
Definition queryGet (r : Request) (key : string) : string :=
  match query r !! key with
  | Some (v :: _) => v
  | _ => EmptyString
  end.

(** The process environment and [os.Getenv]. *)
Definition Getenv (env : gmap string string) (key : string) : string :=
  default EmptyString (env !! key).

Record ResponseWriter := {
  header : gmap string string;
  wroteHeader : bool;
  status : Z;
  body : list byte
}.

Definition newResponseWriter : ResponseWriter :=
  {| header := ∅; wroteHeader := false; status := 0; body := [] |}.

(** [w.Header().Set(key, value)]. *)
Definition HeaderSet (key value : string) (w : ResponseWriter) : ResponseWriter :=
  {| header := <[key := value]> (header w); wroteHeader := wroteHeader w;
     status := status w; body := body w |}.

(** [w.WriteHeader(code)]: only the first call counts. *)
Definition WriteHeader (code : Z) (w : ResponseWriter) : ResponseWriter :=
  if wroteHeader w then w
  else {| header := header w; wroteHeader := true; status := code; body := body w |}.

(** [w.Write(bytes)]: an implicit [WriteHeader(200)] when none was sent. *)
Definition WriteBody (bs : list byte) (w : ResponseWriter) : ResponseWriter :=
  let w := WriteHeader 200 w in
  {| header := header w; wroteHeader := true; status := status w; body := body w ++ bs |}.

Definition newline : string := String (charOf 10) EmptyString.

(** [http.Error(w, msg, code)]. *)
Definition httpError (msg : string) (code : Z) (w : ResponseWriter) : ResponseWriter :=
  let w := {| header := delete "Content-Length" (header w); wroteHeader := wroteHeader w;
              status := status w; body := body w |} in
  let w := HeaderSet "Content-Type" "text/plain; charset=utf-8" w in
  let w := HeaderSet "X-Content-Type-Options" "nosniff" w in
  WriteBody (list_byte_of_string (msg +:+ newline)) (WriteHeader code w).

Definition StatusOK : Z := 200.
Definition StatusBadRequest : Z := 400.
Definition StatusRequestTimeout : Z := 408.
Definition StatusTooManyRequests : Z := 429.
Definition StatusInternalServerError : Z := 500.
Definition StatusServiceUnavailable : Z := 503.

(** ** The capture pipeline *)

(** The actions handed to [chromedp.Run].  The viewport is set with device
    scale factor 1.0; [WaitReady] selects by query. *)
Inductive Action :=
| SetDeviceMetricsOverride (width height : Z) (mobile : bool)
| Navigate (url : string)
| WaitReady (sel : string)
| Sleep (d : Z)
| FullScreenshot (quality : Z).

(** What the browser does with one action: it completes after [took]
    nanoseconds, with the encoded image for a screenshot; it fails; or the
    call panics. *)
Inductive actionResult :=
| ActDone (took : Z) (out : list byte)
| ActFailed (took : Z) (err : error)
| ActPanic.

(** The renderer is external: any function from actions to results. *)
Definition Browser := Action → actionResult.

Inductive captureResult :=
| CaptureReturn (buf : list byte) (err : option error)
| CapturePanic.

Record runResult := {
  performed : list Action;          (* the actions started, in order *)
  outcome : captureResult
}.

Definition perform (browser : Browser) (a : Action) : actionResult :=
  match a with
  | Sleep d => ActDone d []
  | _ => browser a
  end.

(** [chromedp.Run(ctx, actions...)] under [context.WithTimeout(ctx, left)]:
    the actions run one after the other, the first failure ends the run,
    and an action that is not over when the deadline passes, or that would
    start after it, ends the run with [ctx.Err()], [DeadlineExceeded]. *)
Fixpoint Run (browser : Browser) (left : Z) (buf : list byte) (started : list Action)
    (actions : list Action) : runResult :=
  match actions with
  | [] => {| performed := started; outcome := CaptureReturn buf None |}
  | a :: rest =>
      if decide (left ≤ 0) then
        {| performed := started; outcome := CaptureReturn buf (Some DeadlineExceeded) |}
      else
        match perform browser a with
        | ActPanic => {| performed := started ++ [a]; outcome := CapturePanic |}
        | ActFailed took err =>
            {| performed := started ++ [a];
               outcome := CaptureReturn buf
                 (Some (if decide (left ≤ took) then DeadlineExceeded else err)) |}
        | ActDone took out =>
            if decide (left ≤ took) then
              {| performed := started ++ [a];
                 outcome := CaptureReturn buf (Some DeadlineExceeded) |}
            else
              let buf := match a with FullScreenshot _ => out | _ => buf end in
              Run browser (left - took) buf (started ++ [a]) rest
        end
  end.

Definition captureActions (url : string) (width height : Z) : list Action :=
  [ SetDeviceMetricsOverride width height false;
    Navigate url;
    WaitReady "body";
    Sleep (1 * Second);
    FullScreenshot 90 ].

(** [captureScreenshot]: one [Run] of the five actions under one timeout.
    The worker's mutex is free: the worker is checked out to this caller. *)
Definition captureScreenshot (browser : Browser) (worker : ptr)
    (url : string) (width height timeout : Z) : runResult :=
  Run browser timeout [] [] (captureActions url width height).

(** ** Configuration *)

(** A positive whole number of seconds from the environment, or the default:
    [if val, err := strconv.Atoi(v); err == nil && val > 0]. *)
Definition secondsOr (raw : string) (def : Z) : Z :=
  match Atoi raw with
  | Some val => if decide (0 < val) then mul64 val Second else def
  | None => def
  end.

Definition emptyServer : Server :=
  {| heap := []; workerPool := []; workerPoolCap := 0; maxWorkers := 0;
     workers := []; shutdownOnce := false; shutdownChan := false;
     activeRequests := 0; totalRequests := 0; failedRequests := 0;
     timeoutRequests := 0; screenCache := ∅; cacheEnabled := false;
     cacheDuration := 0; calls := [] |}.

(** [init]: the configuration is read once, then the pool is filled. *)
Definition init (env : gmap string string) (clock : nat → Z) : Server :=
  let mw :=
    match Atoi (Getenv env "MAX_CHROME_WORKERS") with
    | Some val => if decide (0 < val) then val else 20
    | None => 20
    end in
  let ce := Getenv env "CACHE_ENABLED" in
  let enabled := negb (bool_decide (ce = "false") || bool_decide (ce = "0")) in
  let duration := secondsOr (Getenv env "CACHE_DURATION_SECONDS") (5 * Minute) in
  initializeWorkerPool clock
    {| heap := []; workerPool := []; workerPoolCap := 0; maxWorkers := mw;
       workers := []; shutdownOnce := false; shutdownChan := false;
       activeRequests := 0; totalRequests := 0; failedRequests := 0;
       timeoutRequests := 0; screenCache := ∅; cacheEnabled := enabled;
       cacheDuration := duration; calls := [] |}.

(** ** The screenshot handler *)

(** A [width] or [height] parameter: the default unless the text parses to
    a value in [1 .. bound]. *)
Definition dimensionOr (raw : string) (def bound : Z) : Z :=
  if decide (raw = EmptyString) then def
  else match Atoi raw with
       | Some val => if decide (0 < val ∧ val ≤ bound) then val else def
       | None => def
       end.

(** What the handler has fixed once validation and configuration are read. *)
Record Job := {
  jobUrl : string;
  jobWidth : Z;
  jobHeight : Z;
  jobTimeout : Z;          (* the render deadline *)
  jobWorkerTimeout : Z     (* the wait budget of [getWorker] *)
}.

(** The first deferred closure: on a panic count a failure and answer 500;
    in every case leave the active-request gauge. *)
Definition deferredRecover (panicked : bool) (s : Server) (w : ResponseWriter)
  : Server * ResponseWriter :=
  let '(s, w) :=
    if panicked
    then (add_failedRequests 1 s, httpError "Internal server error" StatusInternalServerError w)
    else (s, w) in
  (add_activeRequests (-1) s, w).

(** The headers and body of a 200 answer, for a hit and for a fresh capture. *)
Definition writePNG (xcache : string) (payload : list byte) (s : Server)
    (w : ResponseWriter) : ResponseWriter :=
  let w := HeaderSet "Content-Type" "image/png" w in
  let w := HeaderSet "X-Cache" xcache w in
  let w := HeaderSet "Cache-Control" (cacheControl (cacheDuration s)) w in
  WriteBody payload (WriteHeader StatusOK w).

(** Where a handler stands once it has run up to a point where it may park
    or is done. *)
Inductive progress :=
| Responded (s : Server) (w : ResponseWriter)
| NeedWorker (s : Server) (w : ResponseWriter) (job : Job)
| Acquired (s : Server) (w : ResponseWriter) (job : Job) (worker : ptr).

(** From entry up to the call of [getWorker]: counters, validation, the
    cache lookup at time [now], the two timeouts. *)
Definition requestPrelude (env : gmap string string) (now : Z) (r : Request)
    (s : Server) (w : ResponseWriter) : progress :=
  let s := add_totalRequests 1 s in
  let s := add_activeRequests 1 s in
  let url := queryGet r "url" in
  if decide (url = EmptyString) then
    let '(s, w) :=
      deferredRecover false s (httpError "'url' parameter is required" StatusBadRequest w) in
    Responded s w
  else
    let width := dimensionOr (queryGet r "width") 1280 3840 in
    let height := dimensionOr (queryGet r "height") 720 2160 in
    let lookup :=
      if cacheEnabled s then
        let cacheKey := getCacheKey url width height in
        let s := record_call (CallCacheLoad cacheKey) s in
        (s, cacheGet now cacheKey s)
      else (s, None) in
    match lookup with
    | (s, Some cached) =>
        let '(s, w) := deferredRecover false s (writePNG "HIT" cached s w) in
        Responded s w
    | (s, None) =>
        NeedWorker s w
          {| jobUrl := url; jobWidth := width; jobHeight := height;
             jobTimeout := secondsOr (Getenv env "SCREENSHOT_TIMEOUT") (45 * Second);
             jobWorkerTimeout := secondsOr (Getenv env "WORKER_TIMEOUT") (15 * Second) |}
    end.

(** The call of [getWorker] and the branch on its error. *)
Definition acquireWorker (pick : selectCase) (elapsed : Z) (job : Job)
    (s : Server) (w : ResponseWriter) : option progress :=
  match getWorker pick (jobWorkerTimeout job) elapsed s with
  | None => None
  | Some (s, inr err) =>
      let s := add_timeoutRequests 1 s in
      let s := add_failedRequests 1 s in
      let '(s, w) :=
        deferredRecover false s
          (httpError "Server busy, please retry later" StatusServiceUnavailable w) in
      Some (Responded s w)
  | Some (s, inl worker) => Some (Acquired s w job worker)
  end.

(** The body after [defer releaseWorker(worker)]: the capture, the branch
    on its error, the store and the answer.  The flag tells whether the
    body panicked. *)
Definition captureAndRespond (browser : Browser) (nowStore : Z) (job : Job)
    (worker : ptr) (s : Server) (w : ResponseWriter) : bool * Server * ResponseWriter :=
  let s := record_call (CallCapture worker) s in
  match outcome (captureScreenshot browser worker (jobUrl job) (jobWidth job)
                   (jobHeight job) (jobTimeout job)) with
  | CapturePanic => (true, s, w)
  | CaptureReturn buf (Some err) =>
      let s := add_failedRequests 1 s in
      if decide (err = DeadlineExceeded) then
        let s := add_timeoutRequests 1 s in
        (false, s, httpError "Screenshot timeout - page took too long to load"
                     StatusRequestTimeout w)
      else
        (false, s, httpError "Error capturing screenshot" StatusInternalServerError w)
  | CaptureReturn buf None =>
      let s :=
        if cacheEnabled s && bool_decide (0 < length buf)%nat then
          cachePut nowStore (getCacheKey (jobUrl job) (jobWidth job) (jobHeight job)) buf s
        else s in
      (false, s, writePNG "MISS" buf s w)
  end.

(** The rest of the handler once a worker is held: the body, then the
    deferred calls in reverse order of their [defer]: [releaseWorker], then
    the recovering closure.  Both run whether the body returned or panicked. *)
Definition renderAndRespond (browser : Browser) (nowStore nowRelease : Z) (job : Job)
    (worker : ptr) (s : Server) (w : ResponseWriter) : Server * ResponseWriter :=
  let '(panicked, s, w) := captureAndRespond browser nowStore job worker s w in
  let s := releaseWorker nowRelease (Some worker) s in
  deferredRecover panicked s w.

(** What the world contributes to one run of the handler. *)
Record Oracle := {
  lookupTime : Z;           (* the clock at the cache lookup *)
  pick : selectCase;        (* how the select of [getWorker] is resolved *)
  parked : Z;               (* after how long *)
  browser : Browser;
  storeTime : Z;            (* the clock at the cache store *)
  releaseTime : Z           (* the clock in [releaseWorker] *)
}.

(** [HandleScreenshot], run without interruption.  [None]: the select of
    [getWorker] cannot be resolved the way the oracle says. *)
Definition HandleScreenshot (env : gmap string string) (o : Oracle) (r : Request)
    (s : Server) (w : ResponseWriter) : option (Server * ResponseWriter) :=
  match requestPrelude env (lookupTime o) r s w with
  | Responded s w => Some (s, w)
  | Acquired s w _ _ => Some (s, w)
  | NeedWorker s w job =>
      match acquireWorker (pick o) (parked o) job s w with
      | None => None
      | Some (Acquired s w job worker) =>
          Some (renderAndRespond (browser o) (storeTime o) (releaseTime o) job worker s w)
      | Some (Responded s w) => Some (s, w)
      | Some (NeedWorker s w _) => Some (s, w)
      end
  end.

(** ** The health probe *)

Definition dquote : string := String (charOf 34) EmptyString.

Definition jsonText (name value : string) : string :=
  dquote +:+ name +:+ dquote +:+ ":" +:+ dquote +:+ value +:+ dquote.
Definition jsonInt (name : string) (value : Z) : string :=
  dquote +:+ name +:+ dquote +:+ ":" +:+ pretty value.

Record HealthSnapshot := {
  healthStatus : string;
  healthCode : Z;
  active_requests : Z;
  total_requests : Z;
  failed_requests : Z;
  timeout_requests : Z;
  available_workers : Z;
  max_workers : Z
}.

(** The values [HandleHealth] loads and derives. *)
Definition healthSnapshot (s : Server) : HealthSnapshot :=
  let availableWorkers := Z.of_nat (length (workerPool s)) in
  let degraded := bool_decide (availableWorkers = 0) in
  {| healthStatus := if degraded then "degraded" else "healthy";
     healthCode := if degraded then StatusTooManyRequests else StatusOK;
     active_requests := activeRequests s;
     total_requests := totalRequests s;
     failed_requests := failedRequests s;
     timeout_requests := timeoutRequests s;
     available_workers := availableWorkers;
     max_workers := maxWorkers s |}.

Definition healthBody (h : HealthSnapshot) : string :=
  "{" +:+ jsonText "status" (healthStatus h)
  +:+ "," +:+ jsonInt "active_requests" (active_requests h)
  +:+ "," +:+ jsonInt "total_requests" (total_requests h)
  +:+ "," +:+ jsonInt "failed_requests" (failed_requests h)
  +:+ "," +:+ jsonInt "timeout_requests" (timeout_requests h)
  +:+ "," +:+ jsonInt "available_workers" (available_workers h)
  +:+ "," +:+ jsonInt "max_workers" (max_workers h) +:+ "}".

Definition HandleHealth (s : Server) (w : ResponseWriter) : ResponseWriter :=
  let h := healthSnapshot s in
  let w := HeaderSet "Content-Type" "application/json" w in
  WriteBody (list_byte_of_string (healthBody h)) (WriteHeader (healthCode h) w).

(** ** Concurrent requests *)

(** A goroutine running [HandleScreenshot]: entered, parked in the select
    of [getWorker], holding a worker, or finished with its response. *)
Inductive goroutine :=
| Entered (r : Request)
| Parked (w : ResponseWriter) (job : Job)
| Holding (w : ResponseWriter) (job : Job) (worker : ptr)
| Finished (w : ResponseWriter).

Record System := {
  server : Server;
  handlers : list goroutine
}.

Definition suspend (p : progress) : Server * goroutine :=
  match p with
  | Responded s w => (s, Finished w)
  | NeedWorker s w job => (s, Parked w job)
  | Acquired s w job worker => (s, Holding w job worker)
  end.

Definition resume (sys : System) (i : nat) (p : progress) : System :=
  {| server := (suspend p).1; handlers := <[i := (suspend p).2]> (handlers sys) |}.

(** The steps of the service: a request arrives; a handler runs from one
    point where it can park to the next against the shared state of that
    moment; [Shutdown] is called; the sweep ticks. *)
Inductive step (env : gmap string string) : System → System → Prop :=
| step_enter sys r :
    step env sys {| server := server sys; handlers := handlers sys ++ [Entered r] |}
| step_prelude sys i r now :
    handlers sys !! i = Some (Entered r) →
    step env sys (resume sys i (requestPrelude env now r (server sys) newResponseWriter))
| step_select sys i w job pick elapsed p :
    handlers sys !! i = Some (Parked w job) →
    acquireWorker pick elapsed job (server sys) w = Some p →
    step env sys (resume sys i p)
| step_render sys i w job worker browser nowStore nowRelease :
    handlers sys !! i = Some (Holding w job worker) →
    step env sys
      (resume sys i
         (let '(s, w) := renderAndRespond browser nowStore nowRelease job worker
                           (server sys) w in Responded s w))
| step_shutdown sys :
    step env sys {| server := Shutdown (server sys); handlers := handlers sys |}
| step_sweep sys now :
    step env sys {| server := sweepTick now (server sys); handlers := handlers sys |}.

Definition held (g : goroutine) : option ptr :=
  match g with
  | Holding _ _ worker => Some worker
  | _ => None
  end.

(** The workers checked out: those held by some handler. *)
Definition checkedOut (sys : System) : list ptr := omap held (handlers sys).

Definition available (sys : System) : nat := length (workerPool (server sys)).

(** The service right after the pool is initialised: no request yet. *)
Definition boot (clock : nat → Z) (s : Server) : System :=
  {| server := initializeWorkerPool clock s; handlers := [] |}.

(** ** Reading the history *)

(** The arguments of the calls of [releaseWorker] in a stretch of history. *)
Definition released (c : call) : option (option ptr) :=
  match c with
  | CallReleaseWorker worker => Some worker
  | _ => None
  end.

Definition releases (history : list call) : list (option ptr) := omap released history.

(** A demonstration service: two workers, the cache on with the default
    five minutes, every clock reading zero. *)
Definition demoEnv : gmap string string := {[ "MAX_CHROME_WORKERS" := "2" ]}.
Definition demoClock : nat → Z := λ _, 0.
Definition demoServer : Server := init demoEnv demoClock.

Definition demoRequest : Request :=
  {| query := {[ "url" := ["https://example.com"] ]} |}.

Definition onePixel : list byte := [x89; x50; x4e; x47]%byte.

(** A browser that takes a second for each action and encodes [onePixel]. *)
Definition demoBrowser : Browser := λ a,
  match a with
  | FullScreenshot _ => ActDone Second onePixel
  | _ => ActDone Second []
  end.

Definition demoOracle : Oracle :=
  {| lookupTime := 0; pick := RecvWorker; parked := 0; browser := demoBrowser;
     storeTime := 5 * Second; releaseTime := 5 * Second |}.

(** ** Reading the response *)

(** The handler returned, having sent this status. *)
Definition answered (res : option (Server * ResponseWriter)) (code : Z) : Prop :=
  ∃ s' w', res = Some (s', w') ∧ wroteHeader w' = true ∧ status w' = code.

(** The handler returned, having sent 200 with the three headers of an
    image and this payload as the body. *)
Definition answeredPNG (res : option (Server * ResponseWriter)) (xcache : string)
    (payload : list byte) (ttl : Z) : Prop :=
  ∃ s' w', res = Some (s', w')
    ∧ wroteHeader w' = true ∧ status w' = 200
    ∧ header w' !! "Content-Type" = Some "image/png"
    ∧ header w' !! "X-Cache" = Some xcache
    ∧ header w' !! "Cache-Control" = Some ("public, max-age=" +:+ pretty (durationSeconds ttl))
    ∧ body w' = payload.

(** The request with one query parameter set to a single value. *)
Definition withParam (key value : string) (r : Request) : Request :=
  {| query := <[key := [value]]> (query r) |}.

(** A [width] or [height] text that is present but is not a number, is not
    positive, or is above the bound. *)
Definition unusable (raw : string) (bound : Z) : Prop :=
  raw ≠ EmptyString
  ∧ (Atoi raw = None ∨ ∃ val, Atoi raw = Some val ∧ (val ≤ 0 ∨ bound < val)).

(** A counter holds an [int64]. *)
Definition int64 (x : Z) : Prop := minInt64 ≤ x ≤ maxInt64.

(** ** Reading a run of the pipeline *)




(** The image the browser encodes for a screenshot action. *)
Definition encoded (browser : Browser) (a : Action) : list byte :=
  match browser a with
  | ActDone _ out => out
  | _ => []
  end.

(** ** Reading texts *)

(** The character occurs in the text. *)
Fixpoint occurs (c : ascii) (s : string) : Prop :=
  match s with
  | EmptyString => False
  | String d rest => c = d ∨ occurs c rest
  end.

(** One of the characters that [%d] writes. *)
Definition decimalChar (c : ascii) : Prop :=
  c = "-"%char ∨ ∃ d, (d < 10)%N ∧ c = pretty_N_char d.

Definition isByte (b : Z) : Prop := 0 ≤ b < 256.

(** The text of a sequence of bytes. *)
Definition textOf (bs : list Z) : string := string_of_list_ascii (charOf <$> bs).

(** Two urls of 128 bytes each that differ in six bytes (the pair of
    messages of Wang and Yu, 2004). *)
Definition collisionA : string := textOf
  [209; 49; 221; 2; 197; 230; 238; 196; 105; 61; 154; 6; 152; 175; 249; 92;
   47; 202; 181; 135; 18; 70; 126; 171; 64; 4; 88; 62; 184; 251; 127; 137;
   85; 173; 52; 6; 9; 244; 179; 2; 131; 228; 136; 131; 37; 113; 65; 90;
   8; 81; 37; 232; 247; 205; 201; 159; 217; 29; 189; 242; 128; 55; 60; 91;
   216; 130; 62; 49; 86; 52; 143; 91; 174; 109; 172; 212; 54; 201; 25; 198;
   221; 83; 226; 180; 135; 218; 3; 253; 2; 57; 99; 6; 210; 72; 205; 160;
   233; 159; 51; 66; 15; 87; 126; 232; 206; 84; 182; 112; 128; 168; 13; 30;
   198; 152; 33; 188; 182; 168; 131; 147; 150; 249; 101; 43; 111; 247; 42; 112].

Definition collisionB : string := textOf
  [209; 49; 221; 2; 197; 230; 238; 196; 105; 61; 154; 6; 152; 175; 249; 92;
   47; 202; 181; 7; 18; 70; 126; 171; 64; 4; 88; 62; 184; 251; 127; 137;
   85; 173; 52; 6; 9; 244; 179; 2; 131; 228; 136; 131; 37; 241; 65; 90;
   8; 81; 37; 232; 247; 205; 201; 159; 217; 29; 189; 114; 128; 55; 60; 91;
   216; 130; 62; 49; 86; 52; 143; 91; 174; 109; 172; 212; 54; 201; 25; 198;
   221; 83; 226; 52; 135; 218; 3; 253; 2; 57; 99; 6; 210; 72; 205; 160;
   233; 159; 51; 66; 15; 87; 126; 232; 206; 84; 182; 112; 128; 40; 13; 30;
   198; 152; 33; 188; 182; 168; 131; 147; 150; 249; 101; 171; 111; 247; 42; 112].

(** ** More of the demonstration *)

(** The configuration [init] reads from [demoEnv], before the pool is filled. *)
Definition demoConfig : Server :=
  {| heap := []; workerPool := []; workerPoolCap := 0; maxWorkers := 2;
     workers := []; shutdownOnce := false; shutdownChan := false;
     activeRequests := 0; totalRequests := 0; failedRequests := 0;
     timeoutRequests := 0; screenCache := ∅; cacheEnabled := true;
     cacheDuration := 5 * Minute; calls := [] |}.

Definition demoJob : Job :=
  {| jobUrl := "https://example.com"; jobWidth := 1280; jobHeight := 720;
     jobTimeout := 45 * Second; jobWorkerTimeout := 15 * Second |}.

(** The state in which the handler of [demoRequest], entered in state [s],
    calls [getWorker]. *)
Definition parkedIn (s : Server) : Server :=
  record_call (CallCacheLoad (getCacheKey "https://example.com" 1280 720))
    (add_activeRequests 1 (add_totalRequests 1 s)).

(** The state after a successful [getWorker] in state [s]; [s] itself when
    no worker can be received. *)
Definition afterRecv (s : Server) : Server :=
  match getWorker RecvWorker (15 * Second) 0 s with
  | Some (s', _) => s'
  | None => s
  end.

(** The demonstration service with both workers checked out. *)
Definition demoSaturated : Server := afterRecv (afterRecv demoServer).

(** An oracle for a request that waits its fifteen seconds in vain. *)
Definition busyOracle : Oracle :=
  {| lookupTime := 0; pick := TimerFired; parked := 15 * Second; browser := demoBrowser;
     storeTime := 20 * Second; releaseTime := 20 * Second |}.

(** A browser whose screenshot is empty, and the oracle with it. *)
Definition blankBrowser : Browser := λ _, ActDone Second [].

Definition blankOracle : Oracle :=
  {| lookupTime := 0; pick := RecvWorker; parked := 0; browser := blankBrowser;
     storeTime := 5 * Second; releaseTime := 5 * Second |}.

(** A request whose width is above the bound. *)
Definition wideRequest : Request :=
  {| query := {[ "url" := ["https://example.com"]; "width" := ["99999"] ]} |}.

(** The service as one request after the other enters, runs its prelude and
    receives a worker. *)
Definition demoSys1 : System :=
  {| server := server (boot demoClock demoConfig); handlers := [Entered demoRequest] |}.
Definition demoSys2 : System :=
  resume demoSys1 0 (requestPrelude ∅ 0 demoRequest (server demoSys1) newResponseWriter).
Definition demoSys3 : System :=
  resume demoSys2 0
    (Acquired (afterRecv (server demoSys2)) newResponseWriter demoJob 0%nat).

(** What the handler of [demoRequest] leaves behind on the demonstration
    service: the state and the response. *)
Definition demoAnswer : Server * ResponseWriter :=
  default (emptyServer, newResponseWriter)
    (HandleScreenshot ∅ demoOracle demoRequest demoServer newResponseWriter).

(** ** Views of the state *)

(** The four counters of the service. *)
Definition counters (s : Server) : Z * Z * Z * Z :=
  (activeRequests s, totalRequests s, failedRequests s, timeoutRequests s).

(** The part of the state the pool lives in. *)
Definition poolView (s : Server)
  : list chromeWorker * list nat * nat * Z * list (option nat) * bool * bool :=
  (heap s, workerPool s, workerPoolCap s, maxWorkers s, workers s,
   shutdownOnce s, shutdownChan s).

(** What the service keeps true of its workers beyond the count. *)
Definition worker_inv (sys : System) : Prop :=
  let s := server sys in
  workers s = Some <$> seq 0 (length (heap s))
  ∧ shutdownChan s = shutdownOnce s
  ∧ Forall (λ x, cancelCalls x = if shutdownOnce s then 1%nat else 0%nat) (heap s)
  ∧ (∀ p, p ∈ workerPool s → busy <$> heap s !! p = Some false)
  ∧ (∀ p, p ∈ checkedOut sys → busy <$> heap s !! p = Some true).

(** The fields [initializeWorkerPool] leaves alone. *)
Definition restView (s : Server)
  : Z * bool * bool * (Z * Z * Z * Z) * gmap string cacheEntry * bool * Z * list call :=
  (maxWorkers s, shutdownOnce s, shutdownChan s, counters s, screenCache s,
   cacheEnabled s, cacheDuration s, calls s).

(** An oracle for the same request ten seconds later. *)
Definition laterOracle : Oracle :=
  {| lookupTime := 10 * Second; pick := RecvWorker; parked := 0; browser := demoBrowser;
     storeTime := 15 * Second; releaseTime := 15 * Second |}.

(** What the handler leaves behind when both workers are out and the
    wait runs out. *)
Definition busyAnswer : Server * ResponseWriter :=
  default (emptyServer, newResponseWriter)
    (HandleScreenshot ∅ busyOracle demoRequest demoSaturated newResponseWriter).


(** * Properties *)

(** ** Whole seconds *)

Section seconds.

Lemma scaled_integer n e : e ≤ 0 → scaledNum n e / scaledDen 1 e = n * 2 ^ (- e).
Proof.
  intros He. unfold scaledNum, scaledDen.
  destruct (decide (0 ≤ e)) as [H0|H0].
  - assert (e = 0) as -> by lia. change (2 ^ (- 0)) with 1.
    change (1 * 2 ^ 0) with 1. rewrite Z.div_1_r. lia.
  - apply Z.div_1_r.
Qed.

Lemma scaled_integer_rem n e : e ≤ 0 → scaledNum n e `mod` scaledDen 1 e = 0.
Proof.
  intros He. unfold scaledDen.
  destruct (decide (0 ≤ e)) as [H0|H0].
  - assert (e = 0) as -> by lia. change (1 * 2 ^ 0) with 1. apply Z.mod_1_r.
  - apply Z.mod_1_r.
Qed.

Lemma scaledDen_pos e : 0 < scaledDen 1 e.
Proof.
  unfold scaledDen. case_decide; [|lia].
  assert (0 < 2 ^ e) by (apply Z.pow_pos_nonneg; lia). lia.
Qed.

Lemma exponent53_integer n :
  0 < n < 2 ^ 53 → exponent53 n 1 = Z.log2 n - 52 ∧ Z.log2 n - 52 ≤ 0.
Proof.
  intros Hn. unfold exponent53. change (Z.log2 1) with 0.
  pose proof (Z.log2_spec n (proj1 Hn)) as [Hlo Hhi].
  pose proof (Z.log2_nonneg n) as Hl0.
  assert (Z.log2 n ≤ 52) as Hl.
  { destruct (decide (Z.log2 n ≤ 52)) as [|Hgt]; [done|]. exfalso.
    assert (2 ^ 53 ≤ 2 ^ Z.log2 n) by (apply Z.pow_le_mono_r; lia). lia. }
  remember (Z.log2 n) as l eqn:Hl_def. clear Hl_def.
  replace (l - 0 - 52) with (l - 52) by lia.
  rewrite scaled_integer by lia.
  assert (2 ^ l * 2 ^ (- (l - 52)) = 2 ^ 52) as Hp.
  { rewrite <- Z.pow_add_r by lia. f_equal. lia. }
  assert (2 ^ Z.succ l * 2 ^ (- (l - 52)) = 2 ^ 53) as Hp'.
  { rewrite <- Z.pow_add_r by lia. f_equal. lia. }
  assert (0 < 2 ^ (- (l - 52))) as Hpos by (apply Z.pow_pos_nonneg; lia).
  rewrite decide_False by nia. rewrite decide_False by nia. lia.
Qed.

(** An integer below [2 ^ 53] is a [float64]. *)
Lemma round53_integer n :
  0 < n < 2 ^ 53 → ∃ m e, round53 n 1 = (m, e) ∧ truncate m e = n.
Proof.
  intros Hn. unfold round53. rewrite decide_False by lia.
  destruct (exponent53_integer n Hn) as [-> He].
  eexists _, _. split; [done|].
  unfold mantissa53. rewrite scaled_integer_rem, scaled_integer by done.
  pose proof (scaledDen_pos (Z.log2 n - 52)).
  rewrite decide_True by lia.
  unfold truncate. case_decide.
  - assert (Z.log2 n - 52 = 0) as -> by lia. change (2 ^ (- 0)) with 1.
    change (2 ^ 0) with 1. lia.
  - apply Z.div_mul. assert (0 < 2 ^ (- (Z.log2 n - 52))); [|lia].
    apply Z.pow_pos_nonneg; lia.
Qed.

(** For a whole number of seconds [int(d.Seconds())] is that number. *)
Lemma durationSeconds_whole k :
  - 2 ^ 53 < k < 2 ^ 53 → durationSeconds (k * Second) = k.
Proof.
  intros Hk. unfold durationSeconds.
  rewrite Z.quot_mul by done. rewrite Z.rem_mul by done.
  change (round53 (Z.abs 0) Second) with (0, 0). cbv iota beta.
  change (Z.max 0 (- 0)) with 0. change (2 ^ 0) with 1.
  change (Z.max 0 0) with 0. change (2 ^ 0) with 1.
  replace (k * 1 + Z.sgn 0 * 0 * 1) with k by (simpl; lia).
  destruct (decide (k = 0)) as [->|Hne]; [done|].
  destruct (round53_integer (Z.abs k)) as (m & e & -> & Ht); [lia|].
  rewrite Ht. lia.
Qed.

(** Off the whole seconds the two roundings show: a duration a little
    under 8589934593 seconds counts as 8589934593, not 8589934592. *)
Lemma durationSeconds_rounds :
  durationSeconds 8589934592999999488 = 8589934593
  ∧ Z.quot 8589934592999999488 Second = 8589934592
  ∧ durationSeconds 999999999 = 0
  ∧ durationSeconds (- 1500000000) = - 1.
Proof. split; [|split; [|split]]; vm_compute; reflexivity. Qed.

End seconds.

(** ** The pool *)

Section pool.
Implicit Types (s : Server) (sys : System).

Lemma initLoop_pool clock n : ∀ i s,
  workerPool (initLoop clock i n s)
    = workerPool s ++ seq (length (heap s)) n.
Proof.
  induction n as [|n IH]; intros i s; simpl.
  - by rewrite app_nil_r.
  - rewrite IH. simpl. rewrite length_app. simpl.
    rewrite <- app_assoc. simpl. do 3 f_equal. lia.
Qed.

Lemma initLoop_cap clock n : ∀ i s,
  workerPoolCap (initLoop clock i n s) = workerPoolCap s.
Proof. induction n as [|n IH]; intros i s; simpl; [done|by rewrite IH]. Qed.

Lemma initializeWorkerPool_pool clock s :
  workerPool (initializeWorkerPool clock s)
    = seq (length (heap s)) (Z.to_nat (maxWorkers s)).
Proof. unfold initializeWorkerPool. by rewrite initLoop_pool. Qed.

Lemma initializeWorkerPool_cap clock s :
  workerPoolCap (initializeWorkerPool clock s) = Z.to_nat (maxWorkers s).
Proof. unfold initializeWorkerPool. by rewrite initLoop_cap. Qed.

End pool.

(** ** The pool bound *)

Section pool_bound.
Implicit Types (s : Server) (sys : System) (hs : list goroutine).

(** The workers the service owns are split between the channel and the
    handlers; the channel has room for all of them. *)
Definition pool_inv (all : list ptr) sys : Prop :=
  workerPoolCap (server sys) = length all
  ∧ workerPool (server sys) ++ checkedOut sys ≡ₚ all.

Lemma held_insert hs i g g' :
  hs !! i = Some g →
  ∃ rest, omap held hs ≡ₚ option_list (held g) ++ rest
        ∧ omap held (<[i := g']> hs) ≡ₚ option_list (held g') ++ rest.
Proof.
  intros Hi. exists (omap held (take i hs) ++ omap held (drop (S i) hs)).
  assert (i < length hs)%nat as Hlt by (by eapply lookup_lt_Some).
  split.
  - rewrite <- (take_drop_middle hs i g Hi) at 1.
    rewrite omap_app. simpl. destruct (held g); simpl; [|done].
    by rewrite Permutation_middle.
  - rewrite insert_take_drop by done. rewrite omap_app. simpl.
    destruct (held g'); simpl; [|done]. by rewrite Permutation_middle.
Qed.

Lemma requestPrelude_pool env now r s w :
  let p := requestPrelude env now r s w in
  workerPool (suspend p).1 = workerPool s
  ∧ workerPoolCap (suspend p).1 = workerPoolCap s
  ∧ held (suspend p).2 = None.
Proof.
  unfold requestPrelude, deferredRecover. simpl.
  repeat (case_decide || case_match); simplify_eq/=; done.
Qed.

Lemma acquireWorker_pool pick elapsed job s w p :
  acquireWorker pick elapsed job s w = Some p →
  workerPoolCap (suspend p).1 = workerPoolCap s
  ∧ option_list (held (suspend p).2) ++ workerPool (suspend p).1 = workerPool s.
Proof.
  unfold acquireWorker, getWorker, deferredRecover. simpl.
  intros H. repeat (case_decide || case_match); simplify_eq/=; done.
Qed.

Lemma renderAndRespond_pool browser nowStore nowRelease job worker s w :
  let s' := (renderAndRespond browser nowStore nowRelease job worker s w).1 in
  workerPoolCap s' = workerPoolCap s
  ∧ workerPool s' =
      if decide (length (workerPool s) < workerPoolCap s)%nat
      then workerPool s ++ [worker] else workerPool s.
Proof.
  unfold renderAndRespond, captureAndRespond, releaseWorker, deferredRecover, cachePut.
  simpl. repeat (case_decide || case_match); simplify_eq/=; done.
Qed.

Lemma Shutdown_pool s :
  workerPool (Shutdown s) = workerPool s
  ∧ workerPoolCap (Shutdown s) = workerPoolCap s.
Proof. unfold Shutdown. by destruct (shutdownOnce s). Qed.

Lemma sweepTick_pool now s :
  workerPool (sweepTick now s) = workerPool s
  ∧ workerPoolCap (sweepTick now s) = workerPoolCap s.
Proof. unfold sweepTick. by destruct (cacheEnabled s). Qed.

Lemma step_pool_inv env all sys sys' :
  step env sys sys' → pool_inv all sys → pool_inv all sys'.
Proof.
  unfold pool_inv, checkedOut.
  intros Hstep [Hcap Hperm]. destruct Hstep as
    [sys r|sys i r now Hi|sys i w job pick elapsed p Hi Hacq
    |sys i w job worker browser nowStore nowRelease Hi|sys|sys now]; simpl.
  - split; [done|]. rewrite omap_app. simpl. by rewrite app_nil_r.
  - destruct (requestPrelude_pool env now r (server sys) newResponseWriter)
      as (Hq & Hc & Hh).
    destruct (held_insert _ i _
      (suspend (requestPrelude env now r (server sys) newResponseWriter)).2 Hi)
      as (rest & H1 & H2).
    rewrite Hq, Hc. split; [done|].
    rewrite H2, Hh. simpl in *. by rewrite <- Hperm, H1.
  - destruct (acquireWorker_pool _ _ _ _ _ _ Hacq) as (Hc & Hq).
    destruct (held_insert _ i _ (suspend p).2 Hi) as (rest & H1 & H2).
    rewrite Hc. split; [done|].
    rewrite H2. rewrite <- Hperm, <- Hq, H1. simpl.
    rewrite <- app_assoc. apply Permutation_app_swap_app.
  - destruct (renderAndRespond_pool browser nowStore nowRelease job worker
                (server sys) w) as (Hc & Hq).
    destruct (held_insert _ i _ (Finished
      (renderAndRespond browser nowStore nowRelease job worker (server sys) w).2) Hi)
      as (rest & H1 & H2).
    destruct (renderAndRespond browser nowStore nowRelease job worker (server sys) w)
      as [s' w'] eqn:Hr. simpl in *.
    rewrite Hc. split; [done|]. rewrite H2.
    rewrite H1 in Hperm. simpl in Hperm.
    destruct (decide (length (workerPool (server sys)) < workerPoolCap (server sys))%nat)
      as [Hlen|Hlen].
    + rewrite Hq, <- Hperm, <- app_assoc. done.
    + exfalso. apply Hlen. rewrite Hcap.
      rewrite <- Hperm, length_app. simpl. lia.
  - destruct (Shutdown_pool (server sys)) as [-> ->]. done.
  - destruct (sweepTick_pool now (server sys)) as [-> ->]. done.
Qed.

Lemma boot_pool_inv clock s :
  pool_inv (seq (length (heap s)) (Z.to_nat (maxWorkers s))) (boot clock s).
Proof.
  unfold pool_inv, boot, checkedOut. simpl.
  rewrite initializeWorkerPool_cap, initializeWorkerPool_pool, length_seq.
  by rewrite app_nil_r.
Qed.

Lemma reachable_pool_inv env clock s sys :
  rtc (step env) (boot clock s) sys →
  pool_inv (seq (length (heap s)) (Z.to_nat (maxWorkers s))) sys.
Proof.
  intros Hrtc. apply rtc_nsteps in Hrtc as [n Hn]. revert sys Hn.
  induction n as [|n IH]; intros sys Hn.
  - inversion Hn; subst. apply boot_pool_inv.
  - apply nsteps_inv_r in Hn as (mid & Hn & Hstep).
    eapply step_pool_inv; eauto.
Qed.

(** C1.  In every state the service reaches from a pool initialised with
    capacity N, through any interleaving of handlers that take a worker
    with getWorker and give it back with releaseWorker, of Shutdown and of
    the sweep: the workers checked out are at most N, the workers in the
    channel plus the workers checked out are exactly N, and no worker is
    checked out twice or checked out and available at once. *)
Theorem pool_bound env clock s sys :
  rtc (step env) (boot clock s) sys →
  let N := Z.to_nat (maxWorkers s) in
  (length (checkedOut sys) ≤ N)%nat
  ∧ (available sys + length (checkedOut sys) = N)%nat
  ∧ NoDup (workerPool (server sys) ++ checkedOut sys).
Proof.
  intros Hrtc N. destruct (reachable_pool_inv _ _ _ _ Hrtc) as [_ Hperm].
  assert (length (workerPool (server sys) ++ checkedOut sys) = N) as Hlen.
  { rewrite Hperm. apply length_seq. }
  rewrite length_app in Hlen. unfold available.
  repeat split; [lia|lia|]. rewrite Hperm. apply NoDup_seq.
Qed.

End pool_bound.

(** ** Shutdown *)

Section shutdown.
Implicit Types (s : Server) (h : list chromeWorker).

Lemma initLoop_heap_length clock n : ∀ i s,
  length (heap (initLoop clock i n s)) = (length (heap s) + n)%nat.
Proof.
  induction n as [|n IH]; intros i s; simpl; [lia|].
  rewrite IH. simpl. rewrite length_app. simpl. lia.
Qed.

Lemma initLoop_shutdownOnce clock n : ∀ i s,
  shutdownOnce (initLoop clock i n s) = shutdownOnce s.
Proof. induction n as [|n IH]; intros i s; simpl; [done|by rewrite IH]. Qed.

Lemma initLoop_fresh clock n : ∀ i s,
  Forall (λ w, cancelCalls w = 0%nat) (heap s) →
  Forall (λ w, cancelCalls w = 0%nat) (heap (initLoop clock i n s)).
Proof.
  induction n as [|n IH]; intros i s Hs; simpl; [done|].
  apply IH. simpl. apply Forall_app. split; [done|]. by repeat constructor.
Qed.

Lemma initLoop_workers clock n : ∀ i s filled,
  length filled = i →
  workers s = filled ++ replicate n None →
  workers (initLoop clock i n s)
    = filled ++ (Some <$> seq (length (heap s)) n).
Proof.
  induction n as [|n IH]; intros i s filled Hlen Hws; simpl.
  - by rewrite Hws.
  - rewrite (IH (S i) _ (filled ++ [Some (length (heap s))])).
    + simpl. rewrite length_app. simpl. rewrite <- app_assoc. simpl.
      by replace (length (heap s) + 1)%nat with (S (length (heap s))) by lia.
    + rewrite length_app. simpl. lia.
    + simpl. rewrite Hws. simpl. rewrite <- Hlen.
      rewrite insert_app_r_alt by lia. rewrite Nat.sub_diag. simpl.
      by rewrite <- app_assoc.
Qed.

Lemma initializeWorkerPool_workers clock s :
  workers (initializeWorkerPool clock s)
    = Some <$> seq (length (heap s)) (Z.to_nat (maxWorkers s)).
Proof.
  unfold initializeWorkerPool.
  by rewrite (initLoop_workers clock _ 0 _ []).
Qed.

(** Cancelling every pointer of a registry that lists a stretch of the
    heap once calls [cancel] once on each worker of that stretch. *)
Lemma cancel_registry : ∀ h pre post,
  foldl cancelWorker (pre ++ h ++ post) (Some <$> seq (length pre) (length h))
    = pre ++ (call_cancel <$> h) ++ post.
Proof.
  induction h as [|x h IH]; intros pre post; simpl; [done|].
  rewrite alter_app_r_alt by lia. rewrite Nat.sub_diag. simpl.
  specialize (IH (pre ++ [call_cancel x]) post).
  rewrite length_app in IH. simpl in IH.
  rewrite <- !app_assoc in IH. simpl in IH.
  by replace (length pre + 1)%nat with (S (length pre)) in IH by lia.
Qed.

Lemma Shutdown_idempotent s : Shutdown (Shutdown s) = Shutdown s.
Proof. unfold Shutdown. by destruct (shutdownOnce s) eqn:E; simpl; rewrite ?E. Qed.

Lemma Shutdown_closes s : shutdownChan (Shutdown s) = true ∨ shutdownOnce s = true.
Proof. unfold Shutdown. destruct (shutdownOnce s); auto. Qed.

(** Once the pool is initialised, the first [Shutdown] calls [cancel] once
    on every worker of the pool, and further calls change nothing. *)
Lemma Shutdown_cancels_once clock s0 n :
  shutdownOnce s0 = false →
  heap s0 = [] →
  let s := Nat.iter (S n) Shutdown (initializeWorkerPool clock s0) in
  shutdownChan s = true
  ∧ length (heap s) = Z.to_nat (maxWorkers s0)
  ∧ Forall (λ w, cancelCalls w = 1%nat) (heap s).
Proof.
  intros Honce Hheap s.
  assert (s = Shutdown (initializeWorkerPool clock s0)) as ->.
  { subst s. induction n as [|n IH]; [done|].
    change (Nat.iter (S (S n)) Shutdown ?x) with (Shutdown (Nat.iter (S n) Shutdown x)).
    by rewrite IH, Shutdown_idempotent. }
  set (s1 := initializeWorkerPool clock s0).
  assert (shutdownOnce s1 = false) as Hs1.
  { subst s1. unfold initializeWorkerPool. by rewrite initLoop_shutdownOnce. }
  assert (length (heap s1) = Z.to_nat (maxWorkers s0)) as Hlen.
  { subst s1. unfold initializeWorkerPool. rewrite initLoop_heap_length.
    simpl. by rewrite Hheap. }
  assert (Forall (λ w, cancelCalls w = 0%nat) (heap s1)) as Hfresh.
  { subst s1. unfold initializeWorkerPool. apply initLoop_fresh. simpl.
    by rewrite Hheap. }
  assert (workers s1 = Some <$> seq 0 (length (heap s1))) as Hws.
  { subst s1. rewrite initializeWorkerPool_workers, Hheap. simpl. by rewrite Hlen. }
  unfold Shutdown. rewrite Hs1. simpl. rewrite Hws.
  pose proof (cancel_registry (heap s1) [] []) as Hc. simpl in Hc.
  rewrite !app_nil_r in Hc. rewrite Hc.
  split; [done|]. split; [by rewrite length_fmap|].
  apply Forall_fmap. eapply Forall_impl; [exact Hfresh|].
  intros w Hw. simpl. by rewrite Hw.
Qed.

(** After [Shutdown] the select of [getWorker] can always proceed: a call
    never parks. *)
Lemma getWorker_after_Shutdown_proceeds s timeout :
  shutdownChan s = true →
  ∃ s', getWorker ShutdownClosed timeout 0 s = Some (s', inr ErrShuttingDown).
Proof. intros H. unfold getWorker. simpl. rewrite H. eauto. Qed.

(** With no worker in the channel, a call after [Shutdown] that returns
    before its timer fires returns the shutdown error. *)
Lemma getWorker_after_Shutdown_empty s pick timeout elapsed s' r :
  shutdownChan s = true →
  workerPool s = [] →
  elapsed < timeout →
  getWorker pick timeout elapsed s = Some (s', r) →
  r = inr ErrShuttingDown.
Proof.
  unfold getWorker. simpl. intros Hc Hq Hlt H. rewrite Hq, Hc in H.
  destruct pick; [done| |by simplify_eq].
  case_decide; [lia|done].
Qed.

End shutdown.

(** ** Release on every path *)

Section release.
Implicit Types (s : Server) (w : ResponseWriter).

Lemma requestPrelude_calls env now r s w s1 w1 job :
  requestPrelude env now r s w = NeedWorker s1 w1 job →
  ∃ before, calls s1 = calls s ++ before ∧ releases before = [].
Proof.
  unfold requestPrelude, deferredRecover. simpl. intros H.
  repeat (case_decide || case_match); simplify_eq/=.
  - by eexists [_].
  - exists []. by rewrite app_nil_r.
Qed.

Lemma getWorker_calls pick timeout elapsed s s' r :
  getWorker pick timeout elapsed s = Some (s', r) →
  calls s' = calls s ++ [CallGetWorker].
Proof.
  unfold getWorker. simpl. intros H.
  repeat (case_decide || case_match); by simplify_eq/=.
Qed.

Lemma captureAndRespond_calls browser nowStore job worker s w :
  ∃ during,
    calls (captureAndRespond browser nowStore job worker s w).1.2 = calls s ++ during
    ∧ releases during = [].
Proof.
  unfold captureAndRespond, cachePut. simpl.
  repeat (case_decide || case_match); simplify_eq/=;
    try (by eexists [_]); by (eexists [_; _]; rewrite <- app_assoc).
Qed.

Lemma captureAndRespond_first browser nowStore job worker s w :
  ∃ rest,
    calls (captureAndRespond browser nowStore job worker s w).1.2
      = calls s ++ [CallCapture worker] ++ rest.
Proof.
  unfold captureAndRespond, cachePut. simpl.
  repeat (case_decide || case_match); simplify_eq/=;
    try (by exists []); by (eexists [_]; rewrite <- app_assoc).
Qed.

Lemma deferredRecover_calls panicked s w :
  calls (deferredRecover panicked s w).1 = calls s.
Proof. unfold deferredRecover. by destruct panicked. Qed.

Lemma deferredRecover_pool panicked s w :
  workerPool (deferredRecover panicked s w).1 = workerPool s.
Proof. unfold deferredRecover. by destruct panicked. Qed.

Lemma renderAndRespond_calls browser nowStore nowRelease job worker s w :
  ∃ during,
    calls (renderAndRespond browser nowStore nowRelease job worker s w).1
      = calls s ++ during ++ [CallReleaseWorker (Some worker)]
    ∧ releases during = [].
Proof.
  unfold renderAndRespond.
  destruct (captureAndRespond_calls browser nowStore job worker s w)
    as (during & Hc & Hr).
  destruct (captureAndRespond browser nowStore job worker s w) as [[panicked s1] w1].
  simpl in Hc. exists during. split; [|done].
  rewrite deferredRecover_calls. unfold releaseWorker. simpl.
  case_decide; simpl; by rewrite Hc, <- app_assoc.
Qed.

Lemma renderAndRespond_captures browser nowStore nowRelease job worker s w :
  ∃ rest,
    calls (renderAndRespond browser nowStore nowRelease job worker s w).1
      = calls s ++ [CallCapture worker] ++ rest.
Proof.
  unfold renderAndRespond.
  destruct (captureAndRespond_first browser nowStore job worker s w) as (rest & Hc).
  destruct (captureAndRespond browser nowStore job worker s w) as [[panicked s1] w1].
  simpl in Hc. exists (rest ++ [CallReleaseWorker (Some worker)]).
  rewrite deferredRecover_calls. unfold releaseWorker. simpl.
  case_decide; simpl; rewrite Hc; by rewrite <- !app_assoc.
Qed.

(** C2.  When getWorker hands a worker to a request, the handler calls
    releaseWorker for that worker exactly once, as the last thing it does
    to the pool, whatever the capture does: it returns an image, it
    returns DeadlineExceeded, it returns another error, or it panics.
    No release is called before the worker is handed out. *)
Theorem release_always env o r s w s1 w1 job s2 worker :
  requestPrelude env (lookupTime o) r s w = NeedWorker s1 w1 job →
  getWorker (pick o) (jobWorkerTimeout job) (parked o) s1 = Some (s2, inl worker) →
  ∃ s' w' before during,
    HandleScreenshot env o r s w = Some (s', w')
    ∧ calls s' = calls s ++ before ++ [CallGetWorker] ++ during
    ∧ releases before = []
    ∧ releases during = [Some worker]
    ∧ last during = Some (CallReleaseWorker (Some worker)).
Proof.
  intros Hpre Hget.
  destruct (requestPrelude_calls _ _ _ _ _ _ _ _ Hpre) as (before & Hb & Hrb).
  pose proof (getWorker_calls _ _ _ _ _ _ Hget) as Hg.
  destruct (renderAndRespond_calls (browser o) (storeTime o) (releaseTime o)
              job worker s2 w1) as (during & Hd & Hrd).
  unfold HandleScreenshot, acquireWorker. rewrite Hpre, Hget.
  destruct (renderAndRespond (browser o) (storeTime o) (releaseTime o) job worker s2 w1)
    as [s' w'] eqn:Hr. simpl in Hd.
  exists s', w', before, (during ++ [CallReleaseWorker (Some worker)]).
  split; [done|]. split.
  { rewrite Hd, Hg, Hb. by rewrite <- !app_assoc. }
  split; [done|]. split.
  - unfold releases in *. rewrite omap_app, Hrd. done.
  - apply last_snoc.
Qed.

End release.

(** ** The cache *)

Section cache.
Implicit Types (s : Server) (key : string) (buf : list byte).

Lemma timeSub_mono t t' u : t ≤ t' → timeSub t u ≤ timeSub t' u.
Proof. unfold timeSub. lia. Qed.

Lemma timeSub_exact t u :
  u ≤ t → t - u ≤ maxInt64 → timeSub t u = t - u.
Proof. unfold timeSub, minInt64, maxInt64. lia. Qed.

Lemma timeSub_lt t u d :
  u ≤ t → d ≤ maxInt64 → (timeSub t u < d ↔ t - u < d).
Proof. unfold timeSub, minInt64, maxInt64. lia. Qed.

Lemma cachePut_lookup now key buf s :
  screenCache (cachePut now key buf s) !! key
    = Some {| data := buf; timestamp := now |}.
Proof. unfold cachePut. simpl. apply lookup_insert_eq. Qed.

Lemma cachePut_lookup_ne now key key' buf s :
  key ≠ key' →
  screenCache (cachePut now key buf s) !! key' = screenCache s !! key'.
Proof. intros. unfold cachePut. simpl. by apply lookup_insert_ne. Qed.

Lemma cachePut_duration now key buf s :
  cacheDuration (cachePut now key buf s) = cacheDuration s.
Proof. done. Qed.

Lemma sweepTick_duration now s : cacheDuration (sweepTick now s) = cacheDuration s.
Proof. unfold sweepTick. by destruct (cacheEnabled s). Qed.

(** A tick of the sweep never changes what a later lookup answers: what
    it deletes is already stale for every reader that comes after it. *)
Lemma cacheGet_sweepTick tick now key s :
  tick ≤ now → cacheGet now key (sweepTick tick s) = cacheGet now key s.
Proof.
  intros Hle. unfold cacheGet. rewrite sweepTick_duration.
  unfold sweepTick. destruct (cacheEnabled s); [simpl|done].
  destruct (screenCache s !! key) as [entry|] eqn:He.
  - destruct (decide (expired tick (cacheDuration s) (key, entry))) as [Hx|Hx].
    + rewrite (proj2 (map_lookup_filter_None _ _ _)).
      * unfold expired in Hx. simpl in Hx.
        pose proof (timeSub_mono tick now (timestamp entry) Hle).
        case_decide; [lia|done].
      * right. intros e He'. simplify_eq. tauto.
    + rewrite (map_lookup_filter_Some_2 _ _ _ entry); done.
  - rewrite (proj2 (map_lookup_filter_None _ _ _)); [done|by left].
Qed.

(** C3.  A value stored under a fingerprint at time [created] is what a
    lookup of that fingerprint at a later time [now] returns as long as
    [now - created] is below the time to live; from then on the lookup
    misses, although the entry is still in the map when no sweep has run.
    A sweep between the store and the lookup changes neither answer. *)
Theorem cache_put_get s key buf created now :
  created ≤ now →
  cacheDuration s ≤ maxInt64 →
  let stored := cachePut created key buf s in
  (now - created < cacheDuration s → cacheGet now key stored = Some buf)
  ∧ (cacheDuration s ≤ now - created →
       cacheGet now key stored = None
       ∧ screenCache stored !! key = Some {| data := buf; timestamp := created |})
  ∧ (∀ tick, created ≤ tick ≤ now →
       cacheGet now key (sweepTick tick stored) = cacheGet now key stored).
Proof.
  intros Hle Hd stored.
  pose proof (timeSub_lt now created (cacheDuration s) Hle Hd) as Hlt.
  repeat split.
  - intros H. unfold cacheGet. subst stored.
    rewrite cachePut_lookup, cachePut_duration. simpl.
    case_decide; [done|tauto].
  - unfold cacheGet. subst stored.
    rewrite cachePut_lookup, cachePut_duration. simpl.
    case_decide; [lia|done].
  - apply cachePut_lookup.
  - intros tick [_ Htick]. by apply cacheGet_sweepTick.
Qed.

End cache.

(** ** The outcome of a request *)

Section outcome.
Implicit Types (s : Server) (w : ResponseWriter).

Lemma httpError_fresh msg code :
  wroteHeader (httpError msg code newResponseWriter) = true
  ∧ status (httpError msg code newResponseWriter) = code.
Proof. done. Qed.

Lemma writePNG_fresh xcache payload s :
  let w := writePNG xcache payload s newResponseWriter in
  wroteHeader w = true ∧ status w = 200
  ∧ header w !! "Content-Type" = Some "image/png"
  ∧ header w !! "X-Cache" = Some xcache
  ∧ header w !! "Cache-Control"
      = Some ("public, max-age=" +:+ pretty (durationSeconds (cacheDuration s)))
  ∧ body w = payload.
Proof.
  unfold writePNG, WriteBody, WriteHeader, HeaderSet, cacheControl. simpl.
  repeat split; by simplify_map_eq.
Qed.

Lemma answeredPNG_intro s' s1 xcache payload ttl :
  cacheDuration s1 = ttl →
  answeredPNG (Some (s', writePNG xcache payload s1 newResponseWriter))
    xcache payload ttl.
Proof.
  intros <-. eexists _, _. split; [done|]. apply writePNG_fresh.
Qed.

Lemma getWorker_cache pick timeout elapsed s s' r :
  getWorker pick timeout elapsed s = Some (s', r) →
  cacheDuration s' = cacheDuration s
  ∧ cacheEnabled s' = cacheEnabled s
  ∧ screenCache s' = screenCache s.
Proof.
  unfold getWorker. simpl. intros H.
  repeat (case_decide || case_match); by simplify_eq/=.
Qed.

Lemma deferredRecover_false s w : (deferredRecover false s w).2 = w.
Proof. done. Qed.

Lemma deferredRecover_duration panicked s w :
  cacheDuration (deferredRecover panicked s w).1 = cacheDuration s.
Proof. by destruct panicked. Qed.

(** The three ways out of the prelude, by the url and the cache. *)
Lemma requestPrelude_cases env now r s w :
  let url := queryGet r "url" in
  let width := dimensionOr (queryGet r "width") 1280 3840 in
  let height := dimensionOr (queryGet r "height") 720 2160 in
  let key := getCacheKey url width height in
  let looked := if cacheEnabled s then record_call (CallCacheLoad key) else λ s, s in
  let s1 := looked (add_activeRequests 1 (add_totalRequests 1 s)) in
  let hit := if cacheEnabled s then cacheGet now key s else None in
  (url = EmptyString →
     requestPrelude env now r s w
       = Responded (add_activeRequests (-1) (add_activeRequests 1 (add_totalRequests 1 s)))
           (httpError "'url' parameter is required" StatusBadRequest w))
  ∧ (url ≠ EmptyString → ∀ v, hit = Some v →
       requestPrelude env now r s w
         = Responded (add_activeRequests (-1) s1) (writePNG "HIT" v s1 w))
  ∧ (url ≠ EmptyString → hit = None →
       requestPrelude env now r s w
         = NeedWorker s1 w
             {| jobUrl := url; jobWidth := width; jobHeight := height;
                jobTimeout := secondsOr (Getenv env "SCREENSHOT_TIMEOUT") (45 * Second);
                jobWorkerTimeout := secondsOr (Getenv env "WORKER_TIMEOUT") (15 * Second) |}).
Proof.
  intros url width height key looked s1 hit.
  unfold requestPrelude. fold url. fold width. fold height. fold key.
  subst hit s1 looked. simpl.
  destruct (decide (url = EmptyString)) as [Hu|Hu]; repeat split; try done.
  - intros _ v. destruct (cacheEnabled s); [|done].
    unfold cacheGet at 1 2. simpl. by intros ->.
  - intros _. destruct (cacheEnabled s); [|done].
    unfold cacheGet at 1 2. simpl. by intros ->.
Qed.

(** The answers of the handler, path by path. *)
Lemma outcome_cases env o r s :
  let res := HandleScreenshot env o r s newResponseWriter in
  let url := queryGet r "url" in
  let width := dimensionOr (queryGet r "width") 1280 3840 in
  let height := dimensionOr (queryGet r "height") 720 2160 in
  let hit :=
    if cacheEnabled s
    then cacheGet (lookupTime o) (getCacheKey url width height) s else None in
  (url = EmptyString → answered res 400)
  ∧ (url ≠ EmptyString → ∀ v, hit = Some v → answeredPNG res "HIT" v (cacheDuration s))
  ∧ (url ≠ EmptyString → hit = None →
     ∃ s1 w1 job,
       requestPrelude env (lookupTime o) r s newResponseWriter = NeedWorker s1 w1 job
       ∧ (∀ s2 err,
            getWorker (pick o) (jobWorkerTimeout job) (parked o) s1 = Some (s2, inr err) →
            answered res 503)
       ∧ (∀ s2 worker,
            getWorker (pick o) (jobWorkerTimeout job) (parked o) s1 = Some (s2, inl worker) →
            match outcome (captureScreenshot (browser o) worker url width height
                             (jobTimeout job)) with
            | CaptureReturn buf None => answeredPNG res "MISS" buf (cacheDuration s)
            | CaptureReturn _ (Some err) =>
                if decide (err = DeadlineExceeded)
                then answered res 408 else answered res 500
            | CapturePanic => answered res 500
            end)).
Proof.
  intros res url width height hit.
  destruct (requestPrelude_cases env (lookupTime o) r s newResponseWriter)
    as (H400 & Hhit & Hmiss).
  fold url width height hit in H400, Hhit, Hmiss.
  repeat split.
  - intros Hu. subst res. unfold HandleScreenshot. rewrite (H400 Hu).
    eexists _, _. split; [done|]. apply httpError_fresh.
  - intros Hu v Hv. subst res. unfold HandleScreenshot. rewrite (Hhit Hu v Hv).
    eexists _, _. split; [done|].
    match goal with |- context [writePNG _ _ ?s1 _] =>
      pose proof (writePNG_fresh "HIT" v s1) as Hw;
      replace (cacheDuration s1) with (cacheDuration s) in Hw
        by (by destruct (cacheEnabled s)) end.
    apply Hw.
  - intros Hu Hnone. eexists _, _, _. split; [exact (Hmiss Hu Hnone)|].
    subst res. unfold HandleScreenshot. rewrite (Hmiss Hu Hnone).
    unfold acquireWorker. simpl. split.
    + intros s2 err ->. simpl. eexists _, _. split; [done|]. apply httpError_fresh.
    + intros s2 worker Hget. rewrite Hget.
      apply getWorker_cache in Hget as (Hd & _ & _).
      unfold renderAndRespond, captureAndRespond. simpl.
      destruct (outcome _) as [buf [err|]|] eqn:Hout.
      * destruct (decide (err = DeadlineExceeded));
          (eexists _, _; split; [done|]; apply httpError_fresh).
      * eexists _, _. split; [done|].
        match goal with |- context [writePNG _ _ ?s1 _] =>
          pose proof (writePNG_fresh "MISS" buf s1) as Hw;
          replace (cacheDuration s1) with (cacheDuration s) in Hw end.
        { apply Hw. }
        case_match; simpl; rewrite Hd; by destruct (cacheEnabled s).
      * eexists _, _. split; [done|]. apply httpError_fresh.
Qed.

Lemma answered_status res code s' w' :
  answered res code → res = Some (s', w') → status w' = code.
Proof. intros (s'' & w'' & -> & _ & Hs) [= <- <-]. exact Hs. Qed.

Lemma answeredPNG_maxAge res xcache payload ttl s' w' :
  answeredPNG res xcache payload ttl → res = Some (s', w') →
  header w' !! "Cache-Control"
    = Some ("public, max-age=" +:+ pretty (durationSeconds ttl)).
Proof. intros (s'' & w'' & -> & _ & _ & _ & _ & Hc & _) [= <- <-]. exact Hc. Qed.

(** C5.  The status of every answer of the handler.  No url: 400.  A
    fresh cache entry: 200 with Content-Type image/png, X-Cache HIT,
    Cache-Control public, max-age= int(cacheDuration.Seconds()), and the
    cached bytes.  Otherwise a worker is asked for: when getWorker fails,
    503; when the capture returns DeadlineExceeded, 408; when it returns
    any other error or panics, 500; when it returns an image, 200 with
    the same headers, X-Cache MISS, and the image.  When the time to live
    is k whole seconds, every 200 answer carries Cache-Control
    public, max-age=k. *)
Theorem http_outcome env o r s :
  let res := HandleScreenshot env o r s newResponseWriter in
  let url := queryGet r "url" in
  let width := dimensionOr (queryGet r "width") 1280 3840 in
  let height := dimensionOr (queryGet r "height") 720 2160 in
  let hit :=
    if cacheEnabled s
    then cacheGet (lookupTime o) (getCacheKey url width height) s else None in
  (url = EmptyString → answered res 400)
  ∧ (url ≠ EmptyString → ∀ v, hit = Some v → answeredPNG res "HIT" v (cacheDuration s))
  ∧ (url ≠ EmptyString → hit = None →
     ∃ s1 w1 job,
       requestPrelude env (lookupTime o) r s newResponseWriter = NeedWorker s1 w1 job
       ∧ (∀ s2 err,
            getWorker (pick o) (jobWorkerTimeout job) (parked o) s1 = Some (s2, inr err) →
            answered res 503)
       ∧ (∀ s2 worker,
            getWorker (pick o) (jobWorkerTimeout job) (parked o) s1 = Some (s2, inl worker) →
            match outcome (captureScreenshot (browser o) worker url width height
                             (jobTimeout job)) with
            | CaptureReturn buf None => answeredPNG res "MISS" buf (cacheDuration s)
            | CaptureReturn _ (Some err) =>
                if decide (err = DeadlineExceeded)
                then answered res 408 else answered res 500
            | CapturePanic => answered res 500
            end))
  ∧ (∀ k s' w',
       cacheDuration s = k * Second → int64 (cacheDuration s) →
       res = Some (s', w') → status w' = 200 →
       header w' !! "Cache-Control" = Some ("public, max-age=" +:+ pretty k)).
Proof.
  intros res url width height hit.
  destruct (outcome_cases env o r s) as (H400 & Hhit & Hmiss).
  fold res url width height hit in H400, Hhit, Hmiss.
  split; [done|]. split; [done|]. split; [done|].
  intros k s' w' Hk Hint Hres Hst.
  assert (durationSeconds (cacheDuration s) = k) as Hds.
  { rewrite Hk. apply durationSeconds_whole.
    rewrite Hk in Hint. unfold int64, minInt64, maxInt64, Second in Hint. lia. }
  rewrite <- Hds.
  destruct (decide (url = EmptyString)) as [Hu|Hu].
  { pose proof (answered_status _ _ _ _ (H400 Hu) Hres). congruence. }
  destruct hit as [v|] eqn:Hh.
  { exact (answeredPNG_maxAge _ _ _ _ _ _ (Hhit Hu v eq_refl) Hres). }
  destruct (Hmiss Hu eq_refl) as (s1 & w1 & job & Hpre & Hfail & Hok).
  destruct (getWorker (pick o) (jobWorkerTimeout job) (parked o) s1)
    as [[s2 [worker|err]]|] eqn:Hget.
  - specialize (Hok s2 worker eq_refl).
    destruct (outcome _) as [buf [err|]|].
    + destruct (decide (err = DeadlineExceeded));
        pose proof (answered_status _ _ _ _ Hok Hres); congruence.
    + exact (answeredPNG_maxAge _ _ _ _ _ _ Hok Hres).
    + pose proof (answered_status _ _ _ _ Hok Hres). congruence.
  - pose proof (answered_status _ _ _ _ (Hfail s2 err eq_refl) Hres). congruence.
  - exfalso. subst res. unfold HandleScreenshot, acquireWorker in Hres.
    rewrite Hpre, Hget in Hres. done.
Qed.

End outcome.

(** ** Decimal text *)

Section decimal.

Lemma digitValue_pretty_N_char (d : N) :
  (d < 10)%N → digitValue (pretty_N_char d) = Some (Z.of_N d).
Proof.
  intros Hd.
  assert (d = 0 ∨ d = 1 ∨ d = 2 ∨ d = 3 ∨ d = 4 ∨ d = 5 ∨ d = 6 ∨ d = 7
          ∨ d = 8 ∨ d = 9)%N as Hc by lia.
  repeat (destruct Hc as [->|Hc]; [done|]). by subst.
Qed.

(** Reading back the digits that [pretty] writes in front of a text
    continues with the number read so far shifted and increased by the
    number written. *)
Lemma parseDigits_pretty_N_go (x : N) : ∀ s,
  ∃ m, 0 < m ∧ ∀ acc,
    parseDigits acc (pretty_N_go x s) = parseDigits (acc * m + Z.of_N x) s.
Proof.
  induction (N.lt_wf_0 x) as [x _ IH]; intros s.
  destruct (decide (x = 0%N)) as [->|Hx].
  - exists 1. split; [lia|]. intros acc. rewrite pretty_N_go_0. f_equal. lia.
  - assert (0 < x)%N as Hpos by lia.
    rewrite pretty_N_go_step by done.
    destruct (IH (x `div` 10)%N (N.div_lt x 10 Hpos eq_refl)
                (String (pretty_N_char (x `mod` 10)) s)) as (m & Hm & Heq).
    exists (m * 10). split; [lia|]. intros acc. rewrite Heq. simpl.
    rewrite digitValue_pretty_N_char by (by apply N.mod_lt).
    f_equal. rewrite (N.div_mod x 10) at 3 by done. lia.
Qed.

Lemma parseDigits_digit acc c rest v :
  parseDigits acc (String c rest) = Some v → is_Some (digitValue c).
Proof. simpl. destruct (digitValue c); [eauto|done]. Qed.

Lemma digitValue_not_sign c :
  is_Some (digitValue c) → c ≠ "-"%char ∧ c ≠ "+"%char.
Proof. intros [d Hd]. split; intros ->; by vm_compute in Hd. Qed.

Lemma Atoi_pretty_pos (p : positive) :
  ∃ c rest, pretty_N_go (N.pos p) EmptyString = String c rest
    ∧ c ≠ "-"%char ∧ c ≠ "+"%char
    ∧ parseDigits 0 (String c rest) = Some (Z.pos p).
Proof.
  destruct (parseDigits_pretty_N_go (N.pos p) EmptyString) as (m & _ & Heq).
  specialize (Heq 0). simpl in Heq.
  destruct (pretty_N_go (N.pos p) EmptyString) as [|c rest] eqn:Hs.
  - simpl in Heq. simplify_eq.
  - exists c, rest. split; [done|].
    destruct (digitValue_not_sign c) as [? ?].
    { by eapply parseDigits_digit. }
    done.
Qed.

(** [strconv.Atoi] reads back what [%d] writes. *)
Lemma Atoi_pretty (v : Z) :
  minInt64 ≤ v ≤ maxInt64 → Atoi (pretty v) = Some v.
Proof.
  intros Hv. destruct v as [|p|p].
  - done.
  - destruct (Atoi_pretty_pos p) as (c & rest & Hs & Hm & Hp & Hd).
    change (pretty (Z.pos p)) with (pretty_N_go (N.pos p) EmptyString).
    rewrite Hs. unfold Atoi.
    rewrite !bool_decide_eq_false_2 by done. simpl orb. cbv iota.
    rewrite Hd. by rewrite decide_True.
  - destruct (Atoi_pretty_pos p) as (c & rest & Hs & Hm & Hp & Hd).
    change (pretty (Z.neg p)) with ("-" +:+ pretty_N_go (N.pos p) EmptyString).
    rewrite Hs. change ("-" +:+ String c rest) with (String "-" (String c rest)).
    unfold Atoi. rewrite bool_decide_eq_true_2 by done. simpl orb. cbv iota.
    rewrite Hd. rewrite decide_True; [done|]. unfold minInt64, maxInt64 in *. lia.
Qed.

End decimal.

(** ** Validation *)

Section validation.
Implicit Types (s : Server) (w : ResponseWriter) (r : Request).

Lemma dimensionOr_unusable raw def bound :
  unusable raw bound → dimensionOr raw def bound = def.
Proof.
  intros [Hne [Herr|(val & Hval & Hrange)]]; unfold dimensionOr.
  - rewrite decide_False by done. by rewrite Herr.
  - rewrite decide_False by done. rewrite Hval.
    rewrite decide_False; [done|lia].
Qed.


(** A number written in decimal that is not in [1 .. bound] is unusable. *)
Lemma unusable_pretty val bound :
  int64 val → val ≤ 0 ∨ bound < val → unusable (pretty val) bound.
Proof.
  intros Hv Hr. split.
  - intros He. pose proof (Atoi_pretty val Hv) as Ha. by rewrite He in Ha.
  - right. exists val. split; [by apply Atoi_pretty|done].
Qed.

Lemma queryGet_withParam key value r : queryGet (withParam key value r) key = value.
Proof. unfold queryGet, withParam. simpl. by rewrite lookup_insert_eq. Qed.

Lemma queryGet_withParam_ne key key' value r :
  key ≠ key' → queryGet (withParam key value r) key' = queryGet r key'.
Proof. intros. unfold queryGet, withParam. simpl. by rewrite lookup_insert_ne. Qed.

(** The handler reads the request through three parameters only. *)
Lemma HandleScreenshot_params env o r r' s w :
  queryGet r "url" = queryGet r' "url" →
  dimensionOr (queryGet r "width") 1280 3840
    = dimensionOr (queryGet r' "width") 1280 3840 →
  dimensionOr (queryGet r "height") 720 2160
    = dimensionOr (queryGet r' "height") 720 2160 →
  HandleScreenshot env o r s w = HandleScreenshot env o r' s w.
Proof.
  intros Hu Hw Hh. unfold HandleScreenshot, requestPrelude.
  by rewrite Hu, Hw, Hh.
Qed.

(** A request with a url is never answered 400. *)
Lemma HandleScreenshot_accepts env o r s s' w' :
  queryGet r "url" ≠ EmptyString →
  HandleScreenshot env o r s newResponseWriter = Some (s', w') →
  status w' ≠ 400.
Proof.
  intros Hu. unfold HandleScreenshot, requestPrelude.
  rewrite decide_False by done.
  unfold acquireWorker, renderAndRespond, captureAndRespond, deferredRecover.
  intros H.
  repeat (case_decide || case_match); simplify_eq/=; done.
Qed.

(** C8.  A request without a url is answered 400 with the cache, the
    pool and the workers as they were and without a call to either; the
    counters alone move.  A width or height that is present but does not
    parse, is not positive or is above 3840 or 2160 counts as 1280 or
    720: the handler does what it does for the same request with that
    default, and does not answer 400 when the url is there. *)
Theorem validation env o r s :
  let res := HandleScreenshot env o r s newResponseWriter in
  (queryGet r "url" = EmptyString →
     ∃ s' w', res = Some (s', w')
       ∧ status w' = 400
       ∧ screenCache s' = screenCache s
       ∧ workerPool s' = workerPool s
       ∧ heap s' = heap s
       ∧ calls s' = calls s)
  ∧ (unusable (queryGet r "width") 3840 →
       dimensionOr (queryGet r "width") 1280 3840 = 1280
       ∧ res = HandleScreenshot env o (withParam "width" "1280" r) s newResponseWriter
       ∧ (queryGet r "url" ≠ EmptyString → ¬ answered res 400))
  ∧ (unusable (queryGet r "height") 2160 →
       dimensionOr (queryGet r "height") 720 2160 = 720
       ∧ res = HandleScreenshot env o (withParam "height" "720" r) s newResponseWriter
       ∧ (queryGet r "url" ≠ EmptyString → ¬ answered res 400)).
Proof.
  intros res. repeat split.
  - intros Hu. subst res. unfold HandleScreenshot, requestPrelude.
    rewrite decide_True by done. simpl. by eexists _, _.
  - by apply dimensionOr_unusable.
  - subst res. apply HandleScreenshot_params.
    + by rewrite queryGet_withParam_ne.
    + rewrite queryGet_withParam. by rewrite dimensionOr_unusable.
    + by rewrite queryGet_withParam_ne.
  - intros Hu (s' & w' & Hres & _ & Hst).
    by eapply HandleScreenshot_accepts.
  - by apply dimensionOr_unusable.
  - subst res. apply HandleScreenshot_params.
    + by rewrite queryGet_withParam_ne.
    + by rewrite queryGet_withParam_ne.
    + rewrite queryGet_withParam. by rewrite dimensionOr_unusable.
  - intros Hu (s' & w' & Hres & _ & Hst).
    by eapply HandleScreenshot_accepts.
Qed.

End validation.

(** ** Empty captures and failed acquisitions *)

Section accounting.
Implicit Types (s : Server) (w : ResponseWriter) (r : Request).

Lemma add64_exact x : minInt64 ≤ x < maxInt64 → add64 x 1 = x + 1.
Proof.
  unfold add64, wrap64, minInt64, maxInt64. intros Hx.
  rewrite Z.mod_small; lia.
Qed.

Lemma cacheGet_stale now now' key s s' :
  screenCache s' = screenCache s →
  cacheDuration s' = cacheDuration s →
  now ≤ now' →
  cacheGet now key s = None → cacheGet now' key s' = None.
Proof.
  unfold cacheGet. intros -> -> Hle.
  destruct (screenCache s !! key) as [entry|]; [|done].
  pose proof (timeSub_mono now now' (timestamp entry) Hle).
  repeat case_decide; (done || lia).
Qed.

Lemma requestPrelude_cache env now r s w s1 w1 job :
  requestPrelude env now r s w = NeedWorker s1 w1 job →
  screenCache s1 = screenCache s
  ∧ cacheDuration s1 = cacheDuration s
  ∧ cacheEnabled s1 = cacheEnabled s
  ∧ w1 = w
  ∧ queryGet r "url" ≠ EmptyString
  ∧ jobUrl job = queryGet r "url"
  ∧ jobWidth job = dimensionOr (queryGet r "width") 1280 3840
  ∧ jobHeight job = dimensionOr (queryGet r "height") 720 2160
  ∧ (cacheEnabled s = true →
       cacheGet now (getCacheKey (jobUrl job) (jobWidth job) (jobHeight job)) s = None).
Proof.
  unfold requestPrelude, deferredRecover. simpl.
  destruct (decide (queryGet r "url" = EmptyString)); [done|].
  destruct (cacheEnabled s) eqn:He; simpl; intros H.
  - unfold cacheGet in *. simpl in H.
    repeat (case_decide || case_match); simplify_eq/=; done.
  - simplify_eq/=. by repeat split.
Qed.

(** C9.  When the capture succeeds with no bytes, the answer is 200 with
    X-Cache MISS and an empty body, and nothing is stored: the cache is
    as it was, so the same request at any later time misses again, asks
    for a worker again and, given one, runs the capture again. *)
Theorem empty_capture_not_cached env o r s s1 w1 job s2 worker :
  requestPrelude env (lookupTime o) r s newResponseWriter = NeedWorker s1 w1 job →
  getWorker (pick o) (jobWorkerTimeout job) (parked o) s1 = Some (s2, inl worker) →
  outcome (captureScreenshot (browser o) worker (jobUrl job) (jobWidth job)
             (jobHeight job) (jobTimeout job)) = CaptureReturn [] None →
  let res := HandleScreenshot env o r s newResponseWriter in
  answeredPNG res "MISS" [] (cacheDuration s)
  ∧ ∃ s' w', res = Some (s', w')
      ∧ screenCache s' = screenCache s
      ∧ ∀ o', lookupTime o ≤ lookupTime o' →
          ∃ s1' job',
            requestPrelude env (lookupTime o') r s' newResponseWriter
              = NeedWorker s1' newResponseWriter job'
            ∧ jobUrl job' = jobUrl job ∧ jobWidth job' = jobWidth job
            ∧ jobHeight job' = jobHeight job
            ∧ ∀ s2' worker',
                getWorker (pick o') (jobWorkerTimeout job') (parked o') s1'
                  = Some (s2', inl worker') →
                ∃ s'' w'' before after,
                  HandleScreenshot env o' r s' newResponseWriter = Some (s'', w'')
                  ∧ calls s'' = calls s' ++ before ++ [CallCapture worker'] ++ after.
Proof.
  intros Hpre Hget Hout res.
  destruct (requestPrelude_cache _ _ _ _ _ _ _ _ Hpre)
    as (Hc1 & Hd1 & He1 & -> & Hu & Hju & Hjw & Hjh & Hmiss).
  destruct (getWorker_cache _ _ _ _ _ _ Hget) as (Hd2 & He2 & Hc2).
  assert (res = Some (renderAndRespond (browser o) (storeTime o) (releaseTime o)
                        job worker s2 newResponseWriter)) as Hres.
  { subst res. unfold HandleScreenshot, acquireWorker. by rewrite Hpre, Hget. }
  unfold renderAndRespond, captureAndRespond in Hres. rewrite Hout in Hres.
  rewrite andb_false_r in Hres. simpl in Hres.
  split.
  { rewrite Hres. unfold deferredRecover.
    apply answeredPNG_intro. simpl. congruence. }
  eexists _, _. split; [exact Hres|]. split.
  { simpl. unfold releaseWorker. simpl. case_decide; simpl; congruence. }
  intros o' Hle.
  match goal with |- context [requestPrelude _ _ _ ?x _] => set (s' := x) end.
  assert (screenCache s' = screenCache s) as Hc'.
  { subst s'. unfold releaseWorker. simpl. case_decide; simpl; congruence. }
  assert (cacheDuration s' = cacheDuration s) as Hd'.
  { subst s'. unfold releaseWorker. simpl. case_decide; simpl; congruence. }
  assert (cacheEnabled s' = cacheEnabled s) as He'.
  { subst s'. unfold releaseWorker. simpl. case_decide; simpl; congruence. }
  destruct (requestPrelude_cases env (lookupTime o') r s' newResponseWriter)
    as (_ & _ & Hneed).
  specialize (Hneed Hu).
  rewrite He' in Hneed.
  assert ((if cacheEnabled s
           then cacheGet (lookupTime o')
                  (getCacheKey (queryGet r "url")
                     (dimensionOr (queryGet r "width") 1280 3840)
                     (dimensionOr (queryGet r "height") 720 2160)) s'
           else None) = None) as Hnone.
  { destruct (cacheEnabled s) eqn:He; [|done].
    eapply cacheGet_stale; [exact Hc'|exact Hd'|exact Hle|].
    rewrite <- Hju, <- Hjw, <- Hjh. by apply Hmiss. }
  specialize (Hneed Hnone).
  eexists _, _. split; [exact Hneed|]. simpl.
  split; [done|]. split; [done|]. split; [done|].
  intros s2' worker' Hget'.
  unfold HandleScreenshot, acquireWorker. rewrite Hneed.
  cbn [jobWorkerTimeout]. rewrite Hget'.
  pose proof (getWorker_calls _ _ _ _ _ _ Hget') as Hg.
  match goal with |- context [renderAndRespond ?b ?t1 ?t2 ?j ?wk ?st ?wr] =>
    destruct (renderAndRespond_captures b t1 t2 j wk st wr) as (rest & Hrest);
    destruct (renderAndRespond b t1 t2 j wk st wr) as [s'' w'']
  end.
  simpl in Hrest. exists s'', w''.
  destruct (cacheEnabled s); simpl in Hg.
  - eexists [_; _], rest. split; [done|].
    rewrite Hrest, Hg. by rewrite <- !app_assoc.
  - eexists [_], rest. split; [done|].
    rewrite Hrest, Hg. by rewrite <- !app_assoc.
Qed.

Lemma requestPrelude_counters env now r s w s1 w1 job :
  requestPrelude env now r s w = NeedWorker s1 w1 job →
  failedRequests s1 = failedRequests s
  ∧ timeoutRequests s1 = timeoutRequests s.
Proof.
  unfold requestPrelude, deferredRecover. simpl. intros H.
  repeat (case_decide || case_match); by simplify_eq/=.
Qed.

Lemma getWorker_counters pick timeout elapsed s s' res :
  getWorker pick timeout elapsed s = Some (s', res) →
  failedRequests s' = failedRequests s
  ∧ timeoutRequests s' = timeoutRequests s.
Proof.
  unfold getWorker. simpl. intros H.
  repeat (case_decide || case_match); by simplify_eq/=.
Qed.

(** C10.  When getWorker fails, on its timer or on shutdown, the handler
    answers 503 and adds one to timeoutRequests and one to
    failedRequests, in 64-bit arithmetic: exactly one more when the counter
    is below the largest int64.  The health probe reports these counters,
    so its failed count moves with failed acquisitions. *)
Theorem acquire_failure_counted env o r s s1 w1 job s2 err :
  requestPrelude env (lookupTime o) r s newResponseWriter = NeedWorker s1 w1 job →
  getWorker (pick o) (jobWorkerTimeout job) (parked o) s1 = Some (s2, inr err) →
  ∃ s' w',
    HandleScreenshot env o r s newResponseWriter = Some (s', w')
    ∧ status w' = 503
    ∧ timeoutRequests s' = add64 (timeoutRequests s) 1
    ∧ failedRequests s' = add64 (failedRequests s) 1
    ∧ timeout_requests (healthSnapshot s') = add64 (timeoutRequests s) 1
    ∧ failed_requests (healthSnapshot s') = add64 (failedRequests s) 1
    ∧ (minInt64 ≤ timeoutRequests s < maxInt64 →
         timeoutRequests s' = timeoutRequests s + 1)
    ∧ (minInt64 ≤ failedRequests s < maxInt64 →
         failedRequests s' = failedRequests s + 1).
Proof.
  intros Hpre Hget.
  destruct (requestPrelude_counters _ _ _ _ _ _ _ _ Hpre) as (Hf1 & Ht1).
  destruct (getWorker_counters _ _ _ _ _ _ Hget) as (Hf2 & Ht2).
  destruct (requestPrelude_cache _ _ _ _ _ _ _ _ Hpre) as (_ & _ & _ & -> & _).
  unfold HandleScreenshot, acquireWorker. rewrite Hpre, Hget. simpl.
  eexists _, _. split; [done|]. simpl.
  rewrite Hf2, Ht2, Hf1, Ht1.
  repeat split; try done; intros; by apply add64_exact.
Qed.

End accounting.

(** ** The capture pipeline *)

Section pipeline.
Implicit Types (browser : Browser) (actions started : list Action).







End pipeline.

(** ** The fingerprint *)

Section fingerprint.
Implicit Types (c sep : ascii) (a b : string).

Lemma occurs_app c a b : occurs c (a +:+ b) ↔ occurs c a ∨ occurs c b.
Proof. induction a as [|d a IH]; simpl; [tauto|]. rewrite IH. tauto. Qed.

(** A text is cut in one way only at the last occurrence of a character. *)
Lemma split_at_last sep : ∀ a a' b b',
  ¬ occurs sep b → ¬ occurs sep b' →
  a +:+ String sep b = a' +:+ String sep b' → a = a' ∧ b = b'.
Proof.
  induction a as [|c a IH]; intros [|c' a'] b b' Hb Hb'; simpl; intros H.
  - by simplify_eq.
  - simplify_eq. exfalso. apply Hb. apply occurs_app. right. by left.
  - simplify_eq. exfalso. apply Hb'. apply occurs_app. right. by left.
  - simplify_eq. destruct (IH a' b b' Hb Hb') as [-> ->]; done.
Qed.

Lemma decimalChar_plain c : decimalChar c → c ≠ ":"%char ∧ c ≠ "x"%char.
Proof.
  intros [->|(d & Hd & ->)]; [done|].
  assert (d = 0 ∨ d = 1 ∨ d = 2 ∨ d = 3 ∨ d = 4 ∨ d = 5 ∨ d = 6 ∨ d = 7
          ∨ d = 8 ∨ d = 9)%N as Hc by lia.
  repeat (destruct Hc as [->|Hc]; [done|]). by subst.
Qed.

Lemma pretty_N_go_chars (x : N) : ∀ s c,
  occurs c (pretty_N_go x s) → occurs c s ∨ decimalChar c.
Proof.
  induction (N.lt_wf_0 x) as [x _ IH]; intros s c.
  destruct (decide (x = 0%N)) as [->|Hx].
  - rewrite pretty_N_go_0. tauto.
  - assert (0 < x)%N as Hpos by lia.
    rewrite pretty_N_go_step by done. intros H.
    apply IH in H; [|by apply N.div_lt].
    destruct H as [[->|H]|H]; [|tauto..].
    right. right. eexists. split; [|done]. by apply N.mod_lt.
Qed.

Lemma pretty_Z_chars (z : Z) c : occurs c (pretty z) → decimalChar c.
Proof.
  destruct z as [|p|p].
  - simpl. intros [->|[]]. right. by exists 0%N.
  - change (pretty (Z.pos p)) with (pretty_N_go (N.pos p) EmptyString).
    intros H. by apply pretty_N_go_chars in H as [[]|H].
  - change (pretty (Z.neg p)) with (String "-" (pretty_N_go (N.pos p) EmptyString)).
    intros [->|H]; [by left|]. by apply pretty_N_go_chars in H as [[]|H].
Qed.

(** The text that is hashed determines the url, the width and the height. *)
Lemma cacheKeyText_inj url w h url' w' h' :
  cacheKeyText url w h = cacheKeyText url' w' h' →
  url = url' ∧ w = w' ∧ h = h'.
Proof.
  unfold cacheKeyText.
  change (":" +:+ ?x) with (String ":" x).
  change ("x" +:+ ?x) with (String "x" x).
  intros H.
  assert (∀ z z' : Z, ¬ occurs ":" (pretty z +:+ String "x" (pretty z'))) as Hcolon.
  { intros z z' Ho. apply occurs_app in Ho as [Ho|[Ho|Ho]]; [|done|].
    - apply pretty_Z_chars, decimalChar_plain in Ho. tauto.
    - apply pretty_Z_chars, decimalChar_plain in Ho. tauto. }
  assert (∀ z : Z, ¬ occurs "x" (pretty z)) as Hx.
  { intros z Ho. apply pretty_Z_chars, decimalChar_plain in Ho. tauto. }
  apply split_at_last in H as [-> H]; [|done..].
  apply split_at_last in H as [Hw Hh]; [|done..].
  by apply (inj pretty) in Hw, Hh.
Qed.

Lemma hexDigit_inj n m :
  0 ≤ n < 16 → 0 ≤ m < 16 → hexDigit n = hexDigit m → n = m.
Proof.
  intros Hn Hm.
  assert (n = 0 ∨ n = 1 ∨ n = 2 ∨ n = 3 ∨ n = 4 ∨ n = 5 ∨ n = 6 ∨ n = 7
          ∨ n = 8 ∨ n = 9 ∨ n = 10 ∨ n = 11 ∨ n = 12 ∨ n = 13 ∨ n = 14
          ∨ n = 15) as Hc by lia.
  assert (m = 0 ∨ m = 1 ∨ m = 2 ∨ m = 3 ∨ m = 4 ∨ m = 5 ∨ m = 6 ∨ m = 7
          ∨ m = 8 ∨ m = 9 ∨ m = 10 ∨ m = 11 ∨ m = 12 ∨ m = 13 ∨ m = 14
          ∨ m = 15) as Hd by lia.
  intros H.
  repeat (destruct Hc as [->|Hc]);
    repeat (destruct Hd as [->|Hd]); subst; done || (by vm_compute in H).
Qed.

Lemma EncodeToString_inj (bs : list Z) : ∀ bs',
  Forall isByte bs → Forall isByte bs' →
  EncodeToString bs = EncodeToString bs' → bs = bs'.
Proof.
  unfold isByte.
  induction bs as [|x bs IH]; intros [|y bs'] Hb Hb'; simpl; intros H;
    try done.
  inversion Hb; inversion Hb'; subst. simplify_eq.
  assert (x `div` 16 = y `div` 16) as Hhi.
  { apply hexDigit_inj; [| |done];
      (split; [apply Z.div_pos; lia|apply Z.div_lt_upper_bound; lia]). }
  assert (x `mod` 16 = y `mod` 16) as Hlo.
  { apply hexDigit_inj; [| |done]; by apply Z.mod_pos_bound. }
  f_equal.
  - rewrite (Z.div_mod x 16), (Z.div_mod y 16) by done. by rewrite Hhi, Hlo.
  - by apply IH.
Qed.

Lemma le_bytes_isByte n x : Forall isByte (MD5.le_bytes n x).
Proof.
  unfold MD5.le_bytes. apply Forall_fmap, Forall_forall. intros i _. simpl.
  by apply Z.mod_pos_bound.
Qed.

Lemma Sum_isByte msg : Forall isByte (MD5.Sum msg).
Proof.
  unfold MD5.Sum.
  destruct (MD5.blocks _ _ _) as [[[a b] c] d].
  repeat (apply Forall_app; split); apply le_bytes_isByte.
Qed.

(** C6, as amended.  The fingerprint is a function of url, width and
    height.  The text it hashes differs as soon as one of the three
    differs, and two fingerprints are equal exactly when the MD5 digests
    of the two texts are equal: inputs that differ get fingerprints that
    differ unless their texts collide under MD5. *)
Theorem fingerprint_up_to_md5 url w h url' w' h' :
  getCacheKey url w h = getCacheKey url w h
  ∧ ((url, w, h) ≠ (url', w', h') → cacheKeyText url w h ≠ cacheKeyText url' w' h')
  ∧ (getCacheKey url w h = getCacheKey url' w' h'
     ↔ MD5.Sum (bytesOf (cacheKeyText url w h))
         = MD5.Sum (bytesOf (cacheKeyText url' w' h'))).
Proof.
  split; [done|]. split.
  - intros Hne Heq. apply Hne.
    by apply cacheKeyText_inj in Heq as (-> & -> & ->).
  - unfold getCacheKey. split; [|by intros ->].
    apply EncodeToString_inj; apply Sum_isByte.
Qed.

End fingerprint.

(** ** The properties at work on the demonstration service *)

Section demonstration.

Lemma demo_init : init demoEnv demoClock = initializeWorkerPool demoClock demoConfig.
Proof. vm_compute. reflexivity. Qed.

Lemma demo_prelude :
  requestPrelude ∅ 0 demoRequest demoServer newResponseWriter
    = NeedWorker (parkedIn demoServer) newResponseWriter demoJob.
Proof. vm_compute. reflexivity. Defined.

Lemma demo_getWorker :
  getWorker RecvWorker (jobWorkerTimeout demoJob) 0 (parkedIn demoServer)
    = Some (afterRecv (parkedIn demoServer), inl 0%nat).
Proof. vm_compute. reflexivity. Defined.

Lemma demo_reachable : rtc (step ∅) (boot demoClock demoConfig) demoSys3.
Proof.
  eapply rtc_l; [exact (step_enter ∅ (boot demoClock demoConfig) demoRequest)|].
  eapply rtc_l; [exact (step_prelude ∅ demoSys1 0 demoRequest 0 eq_refl)|].
  eapply rtc_l; [|apply rtc_refl].
  refine (step_select ∅ demoSys2 0 newResponseWriter demoJob RecvWorker 0
            (Acquired (afterRecv (server demoSys2)) newResponseWriter demoJob 0%nat)
            _ _); vm_compute; reflexivity.
Defined.

Lemma pool_bound_witness :
  (length (checkedOut demoSys3) ≤ 2)%nat
  ∧ (available demoSys3 + length (checkedOut demoSys3) = 2)%nat
  ∧ NoDup (workerPool (server demoSys3) ++ checkedOut demoSys3).
Proof. exact (pool_bound ∅ demoClock demoConfig demoSys3 demo_reachable). Defined.

Lemma release_always_witness :
  ∃ s' w' before during,
    HandleScreenshot ∅ demoOracle demoRequest demoServer newResponseWriter = Some (s', w')
    ∧ calls s' = calls demoServer ++ before ++ [CallGetWorker] ++ during
    ∧ releases before = []
    ∧ releases during = [Some 0%nat]
    ∧ last during = Some (CallReleaseWorker (Some 0%nat)).
Proof.
  exact (release_always ∅ demoOracle demoRequest demoServer newResponseWriter
           (parkedIn demoServer) newResponseWriter demoJob
           (afterRecv (parkedIn demoServer)) 0%nat demo_prelude demo_getWorker).
Defined.

Lemma cache_put_get_witness :
  cacheGet (10 * Second) "k" (cachePut 0 "k" onePixel demoServer) = Some onePixel
  ∧ cacheGet (300 * Second) "k" (cachePut 0 "k" onePixel demoServer) = None.
Proof.
  split.
  - refine (proj1 (cache_put_get demoServer "k" onePixel 0 (10 * Second) _ _) _);
      vm_compute; done.
  - refine (proj1 (proj1 (proj2
              (cache_put_get demoServer "k" onePixel 0 (300 * Second) _ _)) _));
      vm_compute; done.
Defined.


Lemma demo_saturated_prelude :
  requestPrelude ∅ 0 demoRequest demoSaturated newResponseWriter
    = NeedWorker (parkedIn demoSaturated) newResponseWriter demoJob.
Proof. vm_compute. reflexivity. Defined.

Lemma demo_saturated_timeout :
  getWorker (pick busyOracle) (jobWorkerTimeout demoJob) (parked busyOracle)
            (parkedIn demoSaturated)
    = Some (record_call CallGetWorker (parkedIn demoSaturated), inr ErrNoWorker).
Proof. vm_compute. reflexivity. Defined.

Lemma acquire_failure_counted_witness :
  ∃ s' w',
    HandleScreenshot ∅ busyOracle demoRequest demoSaturated newResponseWriter
      = Some (s', w')
    ∧ status w' = 503
    ∧ timeoutRequests s' = add64 (timeoutRequests demoSaturated) 1
    ∧ failedRequests s' = add64 (failedRequests demoSaturated) 1
    ∧ timeout_requests (healthSnapshot s') = add64 (timeoutRequests demoSaturated) 1
    ∧ failed_requests (healthSnapshot s') = add64 (failedRequests demoSaturated) 1
    ∧ (minInt64 ≤ timeoutRequests demoSaturated < maxInt64 →
         timeoutRequests s' = timeoutRequests demoSaturated + 1)
    ∧ (minInt64 ≤ failedRequests demoSaturated < maxInt64 →
         failedRequests s' = failedRequests demoSaturated + 1).
Proof.
  exact (acquire_failure_counted ∅ busyOracle demoRequest demoSaturated
           (parkedIn demoSaturated) newResponseWriter demoJob
           (record_call CallGetWorker (parkedIn demoSaturated)) ErrNoWorker
           demo_saturated_prelude demo_saturated_timeout).
Defined.

Lemma demo_blank_capture :
  outcome (captureScreenshot (browser blankOracle) 0%nat (jobUrl demoJob)
             (jobWidth demoJob) (jobHeight demoJob) (jobTimeout demoJob))
    = CaptureReturn [] None.
Proof. vm_compute. reflexivity. Defined.

Lemma empty_capture_not_cached_witness :
  answeredPNG (HandleScreenshot ∅ blankOracle demoRequest demoServer newResponseWriter)
    "MISS" [] (cacheDuration demoServer).
Proof.
  exact (proj1 (empty_capture_not_cached ∅ blankOracle demoRequest demoServer
                  (parkedIn demoServer) newResponseWriter demoJob
                  (afterRecv (parkedIn demoServer)) 0%nat
                  demo_prelude demo_getWorker demo_blank_capture)).
Defined.

Lemma demo_wide : unusable (queryGet wideRequest "width") 3840.
Proof.
  split; [by vm_compute|]. right. exists 99999.
  split; [vm_compute; reflexivity|right; by vm_compute].
Defined.

Lemma validation_witness :
  dimensionOr (queryGet wideRequest "width") 1280 3840 = 1280
  ∧ HandleScreenshot ∅ demoOracle wideRequest demoServer newResponseWriter
    = HandleScreenshot ∅ demoOracle (withParam "width" "1280" wideRequest) demoServer
        newResponseWriter.
Proof.
  pose proof (proj1 (proj2 (validation ∅ demoOracle wideRequest demoServer)) demo_wide)
    as (H1 & H2 & _).
  exact (conj H1 H2).
Defined.



Lemma fingerprint_up_to_md5_witness :
  cacheKeyText "https://example.com" 1280 720 ≠ cacheKeyText "https://example.com" 1280 721.
Proof.
  refine (proj1 (proj2 (fingerprint_up_to_md5 "https://example.com" 1280 720
                          "https://example.com" 1280 721)) _).
  intros H. discriminate H.
Defined.

Lemma demo_miss :
  (if cacheEnabled demoServer
   then cacheGet (lookupTime demoOracle)
          (getCacheKey (queryGet demoRequest "url")
             (dimensionOr (queryGet demoRequest "width") 1280 3840)
             (dimensionOr (queryGet demoRequest "height") 720 2160)) demoServer
   else None) = None.
Proof. vm_compute. reflexivity. Defined.

Lemma demo_answer :
  HandleScreenshot ∅ demoOracle demoRequest demoServer newResponseWriter
    = Some (demoAnswer.1, demoAnswer.2).
Proof. vm_compute. reflexivity. Defined.

Lemma http_outcome_witness :
  answeredPNG (HandleScreenshot ∅ demoOracle demoRequest demoServer newResponseWriter)
    "MISS" onePixel (cacheDuration demoServer)
  ∧ status demoAnswer.2 = 200
  ∧ header demoAnswer.2 !! "Cache-Control" = Some "public, max-age=300".
Proof.
  assert (queryGet demoRequest "url" ≠ EmptyString) as Hu by (by vm_compute).
  destruct (proj1 (proj2 (proj2 (http_outcome ∅ demoOracle demoRequest demoServer)))
              Hu demo_miss)
    as (s1 & w1 & job & Hpre & _ & Hok).
  change (lookupTime demoOracle) with 0 in Hpre.
  rewrite demo_prelude in Hpre. injection Hpre as <- <- <-.
  pose proof (Hok _ _ demo_getWorker) as H.
  assert (cacheDuration demoServer = 300 * Second) as Hk by (by vm_compute).
  assert (int64 (cacheDuration demoServer)) as Hint by (by vm_compute).
  assert (status demoAnswer.2 = 200) as Hst by (by vm_compute).
  pose proof (proj2 (proj2 (proj2 (http_outcome ∅ demoOracle demoRequest demoServer)))
                300 demoAnswer.1 demoAnswer.2 Hk Hint demo_answer Hst) as Hage.
  split; [|split; [exact Hst|]].
  - vm_compute in H. vm_compute. exact H.
  - vm_compute in Hage. vm_compute. exact Hage.
Defined.
End demonstration.

(** ** Where the code departs from the claims *)

Section departures.

(** C4, at the failing input.  On the demonstration service, once
    Shutdown has closed the channel and cancelled both workers, a
    getWorker whose select takes the receive case returns at once with
    worker 0, whose cancel has been called: the call does not fail. *)
Theorem getWorker_after_Shutdown_returns_worker :
  let s := Shutdown demoServer in
  shutdownChan s = true
  ∧ getWorker RecvWorker (15 * Second) 0 s = Some (afterRecv s, inl 0%nat)
  ∧ cancelCalls <$> heap (afterRecv s) !! 0%nat = Some 1%nat.
Proof. split; [|split]; vm_compute; reflexivity. Qed.

(** C6, the counterexample.  Two urls that differ and have the same
    fingerprint at 1280 by 720. *)
Lemma fingerprint_collision :
  collisionA ≠ collisionB
  ∧ getCacheKey collisionA 1280 720 = getCacheKey collisionB 1280 720.
Proof.
  split.
  - intros H. vm_compute in H. discriminate H.
  - vm_compute. reflexivity.
Qed.

End departures.

(** ** More of the handler *)

Section more_handler.
Implicit Types (s : Server) (w : ResponseWriter) (r : Request).

Lemma wrap64_int64 x : int64 x → wrap64 x = x.
Proof.
  unfold int64, wrap64, minInt64, maxInt64. intros Hx.
  rewrite Z.mod_small; lia.
Qed.

Lemma wrap64_range x : int64 (wrap64 x).
Proof.
  unfold int64, wrap64, minInt64, maxInt64.
  pose proof (Z.mod_pos_bound (x + 2 ^ 63) (2 ^ 64)). lia.
Qed.

Lemma add64_undo x : int64 x → add64 (add64 x 1) (-1) = x.
Proof.
  unfold add64, wrap64, int64, minInt64, maxInt64.
  change (2 ^ 63) with 9223372036854775808.
  change (2 ^ 64) with 18446744073709551616.
  intros Hx. Z.to_euclidean_division_equations. lia.
Qed.





Lemma requestPrelude_metrics env now r s :
  match requestPrelude env now r s newResponseWriter with
  | Responded s' w' =>
      counters s' = (add64 (add64 (activeRequests s) 1) (-1),
                     add64 (totalRequests s) 1, failedRequests s, timeoutRequests s)
      ∧ wroteHeader w' = true ∧ (status w' = 200 ∨ status w' = 400)
  | NeedWorker s1 w1 job =>
      counters s1 = (add64 (activeRequests s) 1, add64 (totalRequests s) 1,
                     failedRequests s, timeoutRequests s)
      ∧ w1 = newResponseWriter
  | Acquired _ _ _ _ => False
  end.
Proof.
  unfold requestPrelude, deferredRecover, counters. simpl.
  repeat (case_decide || case_match); simplify_eq/=; auto.
Qed.

Lemma getWorker_metrics pick timeout elapsed s s' res :
  getWorker pick timeout elapsed s = Some (s', res) → counters s' = counters s.
Proof.
  unfold getWorker, counters. simpl. intros H.
  repeat (case_decide || case_match); by simplify_eq/=.
Qed.

Lemma releaseWorker_metrics now worker s :
  counters (releaseWorker now worker s) = counters s.
Proof.
  unfold releaseWorker, counters. simpl.
  repeat (case_decide || case_match); by simplify_eq/=.
Qed.

Lemma captureAndRespond_metrics chrome nowStore job worker s :
  let '(panicked, s', w') :=
    captureAndRespond chrome nowStore job worker s newResponseWriter in
  activeRequests s' = activeRequests s ∧ totalRequests s' = totalRequests s
  ∧ if panicked then
      failedRequests s' = failedRequests s ∧ timeoutRequests s' = timeoutRequests s
      ∧ w' = newResponseWriter
    else
      wroteHeader w' = true
      ∧ ((status w' = 200 ∧ failedRequests s' = failedRequests s
          ∧ timeoutRequests s' = timeoutRequests s)
         ∨ (status w' = 500 ∧ failedRequests s' = add64 (failedRequests s) 1
            ∧ timeoutRequests s' = timeoutRequests s)
         ∨ (status w' = 408 ∧ failedRequests s' = add64 (failedRequests s) 1
            ∧ timeoutRequests s' = add64 (timeoutRequests s) 1)).
Proof.
  unfold captureAndRespond, cachePut. simpl.
  destruct (outcome _) as [buf [err|]|]; simpl.
  - destruct (decide (err = DeadlineExceeded)); simpl; auto 10.
  - case_match; simpl; auto 10.
  - auto.
Qed.

Lemma renderAndRespond_metrics chrome nowStore nowRelease job worker s :
  let '(s', w') :=
    renderAndRespond chrome nowStore nowRelease job worker s newResponseWriter in
  activeRequests s' = add64 (activeRequests s) (-1)
  ∧ totalRequests s' = totalRequests s
  ∧ wroteHeader w' = true
  ∧ ((status w' = 200 ∧ failedRequests s' = failedRequests s
      ∧ timeoutRequests s' = timeoutRequests s)
     ∨ (status w' = 500 ∧ failedRequests s' = add64 (failedRequests s) 1
        ∧ timeoutRequests s' = timeoutRequests s)
     ∨ (status w' = 408 ∧ failedRequests s' = add64 (failedRequests s) 1
        ∧ timeoutRequests s' = add64 (timeoutRequests s) 1)).
Proof.
  unfold renderAndRespond.
  pose proof (captureAndRespond_metrics chrome nowStore job worker s) as Hc.
  destruct (captureAndRespond chrome nowStore job worker s newResponseWriter)
    as [[panicked s1] w1].
  pose proof (releaseWorker_metrics nowRelease (Some worker) s1) as Hr.
  unfold counters in Hr. injection Hr as Ha Ht Hf Ho.
  destruct Hc as (Ha1 & Ht1 & Hrest).
  destruct panicked; simpl.
  - destruct Hrest as (Hf1 & Ho1 & ->).
    rewrite Ha, Ht, Hf, Ho, Ha1, Ht1, Hf1, Ho1. auto 10.
  - destruct Hrest as (Hw & Hcases).
    rewrite Ha, Ht, Hf, Ho, Ha1, Ht1. auto 10.
Qed.

(** Every run of the handler falls in one of these classes. *)
Lemma HandleScreenshot_metrics env o r s s' w' :
  HandleScreenshot env o r s newResponseWriter = Some (s', w') →
  activeRequests s' = add64 (add64 (activeRequests s) 1) (-1)
  ∧ totalRequests s' = add64 (totalRequests s) 1
  ∧ wroteHeader w' = true
  ∧ (((status w' = 200 ∨ status w' = 400) ∧ failedRequests s' = failedRequests s
      ∧ timeoutRequests s' = timeoutRequests s)
     ∨ (status w' = 500 ∧ failedRequests s' = add64 (failedRequests s) 1
        ∧ timeoutRequests s' = timeoutRequests s)
     ∨ ((status w' = 408 ∨ status w' = 503)
        ∧ failedRequests s' = add64 (failedRequests s) 1
        ∧ timeoutRequests s' = add64 (timeoutRequests s) 1)).
Proof.
  unfold HandleScreenshot.
  pose proof (requestPrelude_metrics env (lookupTime o) r s) as Hp.
  destruct (requestPrelude env (lookupTime o) r s newResponseWriter)
    as [s0 w0|s1 w1 job|]; [| |done].
  - intros [= <- <-]. destruct Hp as (Hc & Hw & Hs).
    unfold counters in Hc. injection Hc as -> -> -> ->. auto 10.
  - destruct Hp as (Hc & ->). unfold counters in Hc. injection Hc as Ha Ht Hf Ho.
    unfold acquireWorker.
    destruct (getWorker (pick o) (jobWorkerTimeout job) (parked o) s1)
      as [[s2 [worker|err]]|] eqn:Hget; [| |done].
    + apply getWorker_metrics in Hget. unfold counters in Hget.
      injection Hget as Ha2 Ht2 Hf2 Ho2.
      pose proof (renderAndRespond_metrics (browser o) (storeTime o) (releaseTime o)
                    job worker s2) as Hr.
      destruct (renderAndRespond _ _ _ _ _ _ _) as [s3 w3].
      intros [= <- <-]. destruct Hr as (Ha3 & Ht3 & Hw3 & Hcases).
      rewrite Ha3, Ht3, Ha2, Ht2, Ha, Ht. rewrite Hf2, Ho2, Hf, Ho in Hcases.
      repeat split; try done.
      destruct Hcases as [(? & ? & ?)|[(? & ? & ?)|(? & ? & ?)]]; auto 10.
    + apply getWorker_metrics in Hget. unfold counters in Hget.
      injection Hget as Ha2 Ht2 Hf2 Ho2. simpl.
      intros [= <- <-]. simpl. rewrite Ha2, Ht2, Hf2, Ho2, Ha, Ht, Hf, Ho.
      repeat split; try done. right. right. auto.
Qed.

(** X2.  Every run of the handler, whatever its path, leaves
    activeRequests where it found it, adds one to totalRequests and has
    sent a status. *)
Theorem gauge_balanced env o r s s' w' :
  int64 (activeRequests s) →
  HandleScreenshot env o r s newResponseWriter = Some (s', w') →
  activeRequests s' = activeRequests s
  ∧ totalRequests s' = add64 (totalRequests s) 1
  ∧ wroteHeader w' = true.
Proof.
  intros Hint H. apply HandleScreenshot_metrics in H as (Ha & Ht & Hw & _).
  rewrite Ha, add64_undo by done. done.
Qed.

(** X3.  The failure counters by the status sent: 200 and 400 leave both
    alone, 500 adds one to failedRequests only, 408 and 503 add one to
    failedRequests and one to timeoutRequests. *)
Theorem failure_accounting env o r s s' w' :
  HandleScreenshot env o r s newResponseWriter = Some (s', w') →
  (status w' = 200 ∨ status w' = 400 →
     failedRequests s' = failedRequests s ∧ timeoutRequests s' = timeoutRequests s)
  ∧ (status w' = 500 →
       failedRequests s' = add64 (failedRequests s) 1
       ∧ timeoutRequests s' = timeoutRequests s)
  ∧ (status w' = 408 ∨ status w' = 503 →
       failedRequests s' = add64 (failedRequests s) 1
       ∧ timeoutRequests s' = add64 (timeoutRequests s) 1).
Proof.
  intros H. apply HandleScreenshot_metrics in H as (_ & _ & _ & Hc).
  split; [|split]; intros Hs;
    destruct Hc as [(Hs' & Hf & Ho)|[(Hs' & Hf & Ho)|(Hs' & Hf & Ho)]];
    first [by split | exfalso; intuition congruence].
Qed.


Lemma requestPrelude_frame env now r s w :
  poolView (suspend (requestPrelude env now r s w)).1 = poolView s.
Proof.
  unfold requestPrelude, deferredRecover, poolView. simpl.
  repeat (case_decide || case_match); by simplify_eq/=.
Qed.

Lemma getWorker_frame pick timeout elapsed s s' res :
  getWorker pick timeout elapsed s = Some (s', res) →
  match res with
  | inl worker =>
      ∃ rest, workerPool s = worker :: rest
        ∧ poolView s' = (alter (set_busy true) worker (heap s), rest, workerPoolCap s,
                         maxWorkers s, workers s, shutdownOnce s, shutdownChan s)
  | inr err =>
      poolView s' = poolView s
      ∧ (err = ErrNoWorker ∧ timeout ≤ elapsed
         ∨ err = ErrShuttingDown ∧ shutdownChan s = true)
  end.
Proof.
  unfold getWorker, poolView. simpl. intros H.
  destruct pick.
  - destruct (workerPool s) as [|worker rest] eqn:Hq; simplify_eq/=. eauto.
  - case_decide; simplify_eq/=. auto.
  - destruct (shutdownChan s) eqn:Hc; simplify_eq/=. rewrite Hc. auto.
Qed.

Lemma captureAndRespond_frame chrome nowStore job worker s w :
  poolView (captureAndRespond chrome nowStore job worker s w).1.2 = poolView s.
Proof.
  unfold captureAndRespond, cachePut, poolView. simpl.
  repeat (case_decide || case_match); by simplify_eq/=.
Qed.

Lemma renderAndRespond_frame chrome nowStore nowRelease job worker s w :
  poolView (renderAndRespond chrome nowStore nowRelease job worker s w).1 =
    (alter (set_lastUsed nowRelease) worker (alter (set_busy false) worker (heap s)),
     (if decide (length (workerPool s) < workerPoolCap s)%nat
      then workerPool s ++ [worker] else workerPool s),
     workerPoolCap s, maxWorkers s, workers s, shutdownOnce s, shutdownChan s).
Proof.
  unfold renderAndRespond.
  pose proof (captureAndRespond_frame chrome nowStore job worker s w) as Hc.
  destruct (captureAndRespond chrome nowStore job worker s w) as [[panicked s1] w1].
  simpl in Hc. unfold poolView in *. injection Hc as H1 H2 H3 H4 H5 H6 H7.
  unfold releaseWorker, deferredRecover. simpl.
  rewrite <- H1, <- H2, <- H3, <- H4, <- H5, <- H6, <- H7.
  destruct panicked; case_decide; done.
Qed.

(** X4.  A request that was handed a worker gives it back whatever the
    capture did: the worker leaves the head of the channel and is at its
    tail when the handler returns, the channel is as long as before, the
    worker is marked not busy with lastUsed the time of release, and no
    other worker is touched. *)
Theorem worker_returned env o r s s1 w1 job s2 worker :
  requestPrelude env (lookupTime o) r s newResponseWriter = NeedWorker s1 w1 job →
  getWorker (pick o) (jobWorkerTimeout job) (parked o) s1 = Some (s2, inl worker) →
  (length (workerPool s) ≤ workerPoolCap s)%nat →
  ∃ s' w' rest,
    HandleScreenshot env o r s newResponseWriter = Some (s', w')
    ∧ workerPool s = worker :: rest
    ∧ workerPool s' = rest ++ [worker]
    ∧ length (workerPool s') = length (workerPool s)
    ∧ busy <$> heap s' !! worker = (λ _, false) <$> heap s !! worker
    ∧ lastUsed <$> heap s' !! worker = (λ _, releaseTime o) <$> heap s !! worker
    ∧ ∀ p, p ≠ worker → heap s' !! p = heap s !! p.
Proof.
  intros Hpre Hget Hcap.
  pose proof (requestPrelude_frame env (lookupTime o) r s newResponseWriter) as Hf1.
  rewrite Hpre in Hf1. simpl in Hf1.
  apply getWorker_frame in Hget as Hf2. destruct Hf2 as (rest & Hq & Hf2).
  unfold HandleScreenshot, acquireWorker. rewrite Hpre, Hget.
  pose proof (renderAndRespond_frame (browser o) (storeTime o) (releaseTime o)
                job worker s2 w1) as Hf3.
  destruct (renderAndRespond _ _ _ _ _ _ _) as [s' w'].
  simpl in Hf3. unfold poolView in *.
  injection Hf1 as Hh1 Hq1 Hc1 _ _ _ _.
  injection Hf2 as Hh2 Hq2 Hc2 _ _ _ _.
  injection Hf3 as Hh3 Hq3 _ _ _ _ _.
  rewrite Hq1 in Hq. rewrite Hq in Hcap. simpl in Hcap.
  rewrite Hq2, Hc2, Hc1 in Hq3. rewrite decide_True in Hq3 by lia.
  exists s', w', rest. split; [done|]. split; [done|]. split; [done|].
  split; [rewrite Hq3, Hq, length_app; simpl; lia|].
  rewrite Hh3, Hh2, Hh1. repeat split.
  - rewrite !list_lookup_alter_eq. by destruct (heap s !! worker).
  - rewrite !list_lookup_alter_eq. by destruct (heap s !! worker).
  - intros p Hp. by rewrite !list_lookup_alter_ne by done.
Qed.

(** X5.  A request answered from the cache takes no worker: the answer
    is 200 with the cached bytes, the pool and the cache are as they were,
    and the only call made is the cache lookup. *)
Theorem cache_hit_takes_no_worker env o r s cached :
  queryGet r "url" ≠ EmptyString →
  cacheEnabled s = true →
  let key := getCacheKey (queryGet r "url")
               (dimensionOr (queryGet r "width") 1280 3840)
               (dimensionOr (queryGet r "height") 720 2160) in
  cacheGet (lookupTime o) key s = Some cached →
  ∃ s' w',
    HandleScreenshot env o r s newResponseWriter = Some (s', w')
    ∧ status w' = 200 ∧ body w' = cached
    ∧ poolView s' = poolView s
    ∧ screenCache s' = screenCache s
    ∧ calls s' = calls s ++ [CallCacheLoad key].
Proof.
  intros Hu He key Hhit.
  destruct (requestPrelude_cases env (lookupTime o) r s newResponseWriter)
    as (_ & Hc & _).
  specialize (Hc Hu cached). rewrite He in Hc. specialize (Hc Hhit).
  unfold HandleScreenshot. rewrite Hc. eexists _, _. split; [done|].
  by repeat split.
Qed.

End more_handler.

(** ** The workers of the running service *)

Section service.
Implicit Types (s : Server) (sys : System) (w : ResponseWriter).

Lemma initLoop_Forall (P : chromeWorker → Prop) clock n : ∀ i s,
  (∀ t k, P (createWorker t k)) →
  Forall P (heap s) → Forall P (heap (initLoop clock i n s)).
Proof.
  induction n as [|n IH]; intros i s Hc Hs; simpl; [done|].
  apply IH; [done|]. simpl. apply Forall_app. split; [done|].
  by repeat constructor.
Qed.

Lemma initLoop_shutdownChan clock n : ∀ i s,
  shutdownChan (initLoop clock i n s) = shutdownChan s.
Proof. induction n as [|n IH]; intros i s; simpl; [done|by rewrite IH]. Qed.

Lemma initLoop_maxWorkers clock n : ∀ i s,
  maxWorkers (initLoop clock i n s) = maxWorkers s.
Proof. induction n as [|n IH]; intros i s; simpl; [done|by rewrite IH]. Qed.

Lemma acquireWorker_frame pick elapsed job s w p :
  acquireWorker pick elapsed job s w = Some p →
  match p with
  | Acquired s' _ _ worker =>
      ∃ rest, workerPool s = worker :: rest
        ∧ poolView s' = (alter (set_busy true) worker (heap s), rest, workerPoolCap s,
                         maxWorkers s, workers s, shutdownOnce s, shutdownChan s)
  | Responded s' _ => poolView s' = poolView s
  | NeedWorker _ _ _ => False
  end.
Proof.
  unfold acquireWorker.
  destruct (getWorker pick (jobWorkerTimeout job) elapsed s)
    as [[s' [worker|err]]|] eqn:Hget; [| |done].
  - intros [= <-]. by apply getWorker_frame in Hget.
  - intros [= <-]. apply getWorker_frame in Hget as [Hf _].
    unfold deferredRecover. simpl. exact Hf.
Qed.

Lemma Shutdown_frame s :
  poolView (Shutdown s) =
    if shutdownOnce s then poolView s
    else (foldl cancelWorker (heap s) (workers s), workerPool s, workerPoolCap s,
          maxWorkers s, workers s, true, true).
Proof. unfold Shutdown. by destruct (shutdownOnce s). Qed.

Lemma sweepTick_frame now s : poolView (sweepTick now s) = poolView s.
Proof. unfold sweepTick. by destruct (cacheEnabled s). Qed.

Lemma busy_alter_ne (f : chromeWorker → chromeWorker) (h : list chromeWorker) p q :
  p ≠ q → busy <$> alter f q h !! p = busy <$> h !! p.
Proof. intros. by rewrite list_lookup_alter_ne. Qed.

Lemma step_worker_inv env all sys sys' :
  NoDup all → pool_inv all sys →
  step env sys sys' → worker_inv sys → worker_inv sys'.
Proof.
  intros Hnd [Hcap Hperm] Hstep (Hws & Hflag & Hcancel & Hfree & Hheld).
  assert (NoDup (workerPool (server sys) ++ checkedOut sys)) as Hnd'.
  { by rewrite Hperm. }
  unfold worker_inv, checkedOut in *.
  destruct Hstep as
    [sys r|sys i r now Hi|sys i w job pick elapsed p Hi Hacq
    |sys i w job worker chrome nowStore nowRelease Hi|sys|sys now]; simpl.
  - rewrite omap_app. simpl. rewrite app_nil_r. done.
  - pose proof (requestPrelude_frame env now r (server sys) newResponseWriter) as Hf.
    destruct (requestPrelude_pool env now r (server sys) newResponseWriter)
      as (_ & _ & Hh).
    destruct (held_insert _ i _
      (suspend (requestPrelude env now r (server sys) newResponseWriter)).2 Hi)
      as (rest & H1 & H2).
    unfold poolView in Hf. injection Hf as -> -> _ _ -> -> ->.
    repeat split; try done.
    intros p Hp. apply Hheld. rewrite H2, Hh in Hp. by rewrite H1.
  - destruct (held_insert _ i _ (suspend p).2 Hi) as (rest & H1 & H2).
    simpl in H1.
    apply acquireWorker_frame in Hacq.
    destruct p as [s' w'|s' w' job'|s' w' job' worker]; [| done |]; simpl in *.
    + unfold poolView in Hacq. injection Hacq as -> -> _ _ -> -> ->.
      repeat split; try done.
      intros p Hp. apply Hheld. rewrite H2 in Hp. by rewrite H1.
    + destruct Hacq as (q & Hq & Hacq).
      unfold poolView in Hacq. injection Hacq as -> -> _ _ -> -> ->.
      rewrite Hq in Hnd', Hfree. rewrite H1 in Hnd'.
      apply NoDup_cons in Hnd' as [Hnotin Hnd'].
      rewrite length_alter. repeat split; try done.
      * apply Forall_alter; [done|]. intros x _ Hx. done.
      * intros p Hp. rewrite busy_alter_ne.
        { apply Hfree. by right. }
        intros ->. apply Hnotin. apply elem_of_app. by left.
      * intros p Hp. rewrite H2 in Hp. simpl in Hp.
        apply elem_of_cons in Hp as [->|Hp].
        -- rewrite list_lookup_alter_eq.
           specialize (Hfree worker (list_elem_of_here _ _)).
           by destruct (heap (server sys) !! worker).
        -- rewrite busy_alter_ne.
           { apply Hheld. by rewrite H1. }
           intros ->. apply Hnotin. apply elem_of_app. by right.
  - pose proof (renderAndRespond_frame chrome nowStore nowRelease job worker
                  (server sys) w) as Hf.
    destruct (held_insert _ i _ (Finished
      (renderAndRespond chrome nowStore nowRelease job worker (server sys) w).2) Hi)
      as (rest & H1 & H2).
    destruct (renderAndRespond chrome nowStore nowRelease job worker (server sys) w)
      as [s' w'] eqn:Hr. simpl in *.
    unfold poolView in Hf. injection Hf as -> -> _ _ -> -> ->.
    rewrite H1 in Hperm, Hnd'.
    rewrite decide_True.
    2:{ rewrite Hcap, <- Hperm, length_app. simpl. lia. }
    apply NoDup_app in Hnd' as (_ & Hdisj & Hndr).
    apply NoDup_cons in Hndr as [Hnotin _].
    assert (worker ∉ workerPool (server sys)) as Hnotpool.
    { intros Hin. apply (Hdisj _ Hin). by left. }
    rewrite !length_alter. repeat split; try done.
    + apply Forall_alter; [|done]. apply Forall_alter; [done|]. done.
    + intros p Hp. apply elem_of_app in Hp as [Hp|Hp].
      * rewrite !busy_alter_ne by (intros ->; done). by apply Hfree.
      * apply list_elem_of_singleton in Hp as ->.
        rewrite !list_lookup_alter_eq.
        assert (worker ∈ omap held (handlers sys)) as Hin by (rewrite H1; by left).
        specialize (Hheld worker Hin).
        by destruct (heap (server sys) !! worker).
    + intros p Hp. rewrite H2 in Hp. simpl in Hp.
      rewrite !busy_alter_ne by (intros ->; done).
      apply Hheld. rewrite H1. by right.
  - pose proof (Shutdown_frame (server sys)) as Hf.
    destruct (shutdownOnce (server sys)) eqn:Hon.
    + unfold poolView in Hf. injection Hf as -> -> _ _ -> -> ->.
      rewrite Hon. done.
    + unfold poolView in Hf. injection Hf as -> -> _ _ -> -> ->.
      rewrite Hws.
      pose proof (cancel_registry (heap (server sys)) [] []) as Hc. simpl in Hc.
      rewrite !app_nil_r in Hc. rewrite Hc. rewrite length_fmap.
      repeat split; try done.
      * apply Forall_fmap. eapply Forall_impl; [exact Hcancel|].
        intros x Hx. simpl. by rewrite Hx.
      * intros p Hp. rewrite list_lookup_fmap, <- option_fmap_compose.
        by apply Hfree.
      * intros p Hp. rewrite list_lookup_fmap, <- option_fmap_compose.
        by apply Hheld.
  - pose proof (sweepTick_frame now (server sys)) as Hf.
    unfold poolView in Hf. injection Hf as -> -> _ _ -> -> ->. done.
Qed.


Lemma cancelWorker_length ws : ∀ h, length (foldl cancelWorker h ws) = length h.
Proof.
  induction ws as [|[p|] ws IH]; intros h; simpl; [done| |by rewrite IH].
  by rewrite IH, length_alter.
Qed.

Lemma step_static env sys sys' :
  step env sys sys' →
  maxWorkers (server sys') = maxWorkers (server sys)
  ∧ length (heap (server sys')) = length (heap (server sys)).
Proof.
  intros Hstep. destruct Hstep as
    [sys r|sys i r now Hi|sys i w job pick elapsed p Hi Hacq
    |sys i w job worker chrome nowStore nowRelease Hi|sys|sys now]; simpl.
  - done.
  - pose proof (requestPrelude_frame env now r (server sys) newResponseWriter) as Hf.
    unfold poolView in Hf. by injection Hf as -> _ _ -> _ _ _.
  - apply acquireWorker_frame in Hacq.
    destruct p as [s' w'|s' w' job'|s' w' job' worker]; [| done |]; simpl in *.
    + unfold poolView in Hacq. by injection Hacq as -> _ _ -> _ _ _.
    + destruct Hacq as (q & Hq & Hacq).
      unfold poolView in Hacq. injection Hacq as -> _ _ -> _ _ _.
      by rewrite length_alter.
  - pose proof (renderAndRespond_frame chrome nowStore nowRelease job worker
                  (server sys) w) as Hf.
    destruct (renderAndRespond chrome nowStore nowRelease job worker (server sys) w)
      as [s' w'] eqn:Hr. simpl in *.
    unfold poolView in Hf. injection Hf as -> _ _ -> _ _ _.
    by rewrite !length_alter.
  - pose proof (Shutdown_frame (server sys)) as Hf.
    destruct (shutdownOnce (server sys)).
    + unfold poolView in Hf. by injection Hf as -> _ _ -> _ _ _.
    + unfold poolView in Hf. injection Hf as -> _ _ -> _ _ _.
      by rewrite cancelWorker_length.
  - pose proof (sweepTick_frame now (server sys)) as Hf.
    unfold poolView in Hf. by injection Hf as -> _ _ -> _ _ _.
Qed.

Lemma boot_worker_inv clock s0 :
  heap s0 = [] → shutdownOnce s0 = false → shutdownChan s0 = false →
  worker_inv (boot clock s0).
Proof.
  intros Hh Ho Hc. unfold worker_inv, boot, checkedOut. simpl.
  assert (length (heap (initializeWorkerPool clock s0)) = Z.to_nat (maxWorkers s0))
    as Hlen.
  { unfold initializeWorkerPool. rewrite initLoop_heap_length. simpl.
    by rewrite Hh. }
  assert (Forall (λ x, cancelCalls x = 0%nat ∧ busy x = false)
            (heap (initializeWorkerPool clock s0))) as Hfresh.
  { unfold initializeWorkerPool. apply initLoop_Forall; [done|]. simpl.
    by rewrite Hh. }
  assert (shutdownOnce (initializeWorkerPool clock s0) = false) as Ho'.
  { unfold initializeWorkerPool. by rewrite initLoop_shutdownOnce. }
  assert (shutdownChan (initializeWorkerPool clock s0) = false) as Hc'.
  { unfold initializeWorkerPool. by rewrite initLoop_shutdownChan. }
  rewrite Ho', Hc'. split; [|split; [done|split; [|split]]].
  - rewrite initializeWorkerPool_workers, Hh, Hlen. done.
  - eapply Forall_impl; [exact Hfresh|]. by intros x [? ?].
  - intros p Hp. rewrite initializeWorkerPool_pool, Hh in Hp. simpl in Hp.
    apply elem_of_seq in Hp. rewrite <- Hlen in Hp.
    destruct (lookup_lt_is_Some_2 (heap (initializeWorkerPool clock s0)) p)
      as [x Hx]; [lia|].
    rewrite Hx. simpl. f_equal.
    by apply (Forall_lookup_1 _ _ _ _ Hfresh Hx).
  - intros p Hp. by apply elem_of_nil in Hp.
Qed.

Lemma reachable_worker_inv env clock s0 sys :
  heap s0 = [] → shutdownOnce s0 = false → shutdownChan s0 = false →
  rtc (step env) (boot clock s0) sys →
  worker_inv sys
  ∧ maxWorkers (server sys) = maxWorkers s0
  ∧ length (heap (server sys)) = Z.to_nat (maxWorkers s0).
Proof.
  intros Hh Ho Hc Hrtc. apply rtc_nsteps in Hrtc as [n Hn]. revert sys Hn.
  induction n as [|n IH]; intros sys Hn.
  - inversion Hn; subst. split; [by apply boot_worker_inv|].
    unfold boot, initializeWorkerPool. simpl.
    rewrite initLoop_maxWorkers, initLoop_heap_length. simpl. by rewrite Hh.
  - apply nsteps_inv_r in Hn as (mid & Hn & Hstep).
    destruct (IH _ Hn) as (Hinv & Hmw & Hlen).
    destruct (step_static _ _ _ Hstep) as [-> ->]. split; [|done].
    eapply step_worker_inv; [| |exact Hstep|exact Hinv].
    + apply (NoDup_seq (length (heap s0)) (Z.to_nat (maxWorkers s0))).
    + eapply reachable_pool_inv. by apply rtc_nsteps_2 in Hn.
Qed.

(** X7.  In every state the service reaches, the busy flag of a worker
    in the channel is false and the busy flag of a worker held by a
    handler is true. *)
Theorem busy_marks_checked_out env clock s0 sys :
  heap s0 = [] → shutdownOnce s0 = false → shutdownChan s0 = false →
  rtc (step env) (boot clock s0) sys →
  ∀ p, (p ∈ workerPool (server sys) → busy <$> heap (server sys) !! p = Some false)
     ∧ (p ∈ checkedOut sys → busy <$> heap (server sys) !! p = Some true).
Proof.
  intros Hh Ho Hc Hrtc p.
  destruct (reachable_worker_inv env clock s0 sys Hh Ho Hc Hrtc)
    as ((_ & _ & _ & Hfree & Hheld) & _).
  split; [apply Hfree|apply Hheld].
Qed.



End service.

(** ** More of the cache *)

Section more_cache.
Implicit Types (s : Server) (w : ResponseWriter) (r : Request).


(** X6.  With the cache enabled, a capture that returns bytes is stored:
    the same request, looked up no earlier than the store and less than
    the time to live after it, is answered 200 HIT with the same bytes. *)
Theorem capture_then_hit env o r s s1 w1 job s2 worker buf :
  requestPrelude env (lookupTime o) r s newResponseWriter = NeedWorker s1 w1 job →
  getWorker (pick o) (jobWorkerTimeout job) (parked o) s1 = Some (s2, inl worker) →
  outcome (captureScreenshot (browser o) worker (jobUrl job) (jobWidth job)
             (jobHeight job) (jobTimeout job)) = CaptureReturn buf None →
  buf ≠ [] → cacheEnabled s = true → cacheDuration s ≤ maxInt64 →
  ∃ s' w',
    HandleScreenshot env o r s newResponseWriter = Some (s', w')
    ∧ body w' = buf
    ∧ ∀ env' o',
        storeTime o ≤ lookupTime o' →
        lookupTime o' - storeTime o < cacheDuration s →
        answeredPNG (HandleScreenshot env' o' r s' newResponseWriter)
          "HIT" buf (cacheDuration s).
Proof.
  intros Hpre Hget Hout Hbuf He Hd.
  destruct (requestPrelude_cache _ _ _ _ _ _ _ _ Hpre)
    as (Hc1 & Hd1 & He1 & -> & Hu & Hju & Hjw & Hjh & _).
  destruct (getWorker_cache _ _ _ _ _ _ Hget) as (Hd2 & He2 & Hc2).
  unfold HandleScreenshot at 1. unfold acquireWorker. rewrite Hpre, Hget.
  unfold renderAndRespond, captureAndRespond. rewrite Hout.
  change (cacheEnabled (record_call (CallCapture worker) s2)) with (cacheEnabled s2).
  rewrite He2, He1, He. rewrite bool_decide_eq_true_2 by (destruct buf; [done|simpl; lia]).
  simpl andb. cbv iota.
  eexists _, _. split; [done|]. split; [done|].
  intros env' o' Hle Hlt.
  match goal with |- context [HandleScreenshot _ _ _ ?x _] => set (s' := x) end.
  assert (cacheEnabled s' = true) as He'.
  { subst s'. unfold releaseWorker, cachePut. simpl. case_decide; simpl; congruence. }
  assert (cacheDuration s' = cacheDuration s) as Hd'.
  { subst s'. unfold releaseWorker, cachePut. simpl. case_decide; simpl; congruence. }
  assert (screenCache s' !! getCacheKey (jobUrl job) (jobWidth job) (jobHeight job)
          = Some {| data := buf; timestamp := storeTime o |}) as Hk.
  { subst s'. unfold releaseWorker, cachePut. simpl.
    case_decide; simpl; apply lookup_insert_eq. }
  destruct (requestPrelude_cases env' (lookupTime o') r s' newResponseWriter)
    as (_ & Hhit & _).
  specialize (Hhit Hu buf). rewrite He' in Hhit.
  rewrite <- Hju, <- Hjw, <- Hjh in Hhit.
  unfold HandleScreenshot. rewrite Hhit.
  - apply answeredPNG_intro. exact Hd'.
  - unfold cacheGet. rewrite Hk, Hd'. simpl.
    rewrite decide_True; [done|]. by apply timeSub_lt.
Qed.

End more_cache.

(** ** Configuration *)

Section more_config.
Implicit Types (s : Server) (w : ResponseWriter) (r : Request).

Lemma initLoop_rest clock n : ∀ i s, restView (initLoop clock i n s) = restView s.
Proof. induction n as [|n IH]; intros i s; simpl; [done|by rewrite IH]. Qed.

Lemma secondsOr_pretty n def :
  0 < n → n * Second ≤ maxInt64 → secondsOr (pretty n) def = n * Second.
Proof.
  intros Hn Hb. unfold secondsOr.
  rewrite Atoi_pretty by (unfold minInt64, maxInt64, Second in *; lia).
  rewrite decide_True by done. unfold mul64. apply wrap64_int64.
  unfold int64, minInt64, maxInt64, Second in *. lia.
Qed.

Lemma secondsOr_default raw def :
  (Atoi raw = None ∨ ∃ v, Atoi raw = Some v ∧ v ≤ 0) → secondsOr raw def = def.
Proof.
  unfold secondsOr. intros [->|(v & -> & Hv)]; [done|].
  by rewrite decide_False by lia.
Qed.

(** X11.  After init the pool holds maxWorkers workers, all in the
    channel in order of creation, none busy, none cancelled; the channel
    is open, the cache empty, the counters zero.  MAX_CHROME_WORKERS and
    CACHE_DURATION_SECONDS are taken when they are positive decimal
    numbers, 20 and 300 seconds stand when they do not parse, and the
    cache is off exactly for CACHE_ENABLED false or 0. *)
Theorem init_state env clock :
  let s := init env clock in
  let n := Z.to_nat (maxWorkers s) in
  0 < maxWorkers s
  ∧ workerPool s = seq 0 n ∧ workerPoolCap s = n ∧ length (heap s) = n
  ∧ workers s = Some <$> seq 0 n
  ∧ Forall (λ x, busy x = false ∧ cancelCalls x = 0%nat) (heap s)
  ∧ shutdownChan s = false ∧ screenCache s = ∅ ∧ counters s = (0, 0, 0, 0)
  ∧ (∀ k, 0 < k ≤ maxInt64 → Getenv env "MAX_CHROME_WORKERS" = pretty k →
       maxWorkers s = k)
  ∧ (Atoi (Getenv env "MAX_CHROME_WORKERS") = None → maxWorkers s = 20)
  ∧ (cacheEnabled s = false
     ↔ Getenv env "CACHE_ENABLED" = "false" ∨ Getenv env "CACHE_ENABLED" = "0")
  ∧ (∀ k, 0 < k → k * Second ≤ maxInt64 →
       Getenv env "CACHE_DURATION_SECONDS" = pretty k → cacheDuration s = k * Second)
  ∧ (Atoi (Getenv env "CACHE_DURATION_SECONDS") = None → cacheDuration s = 300 * Second).
Proof.
  intros s n. subst n s. unfold init.
  set (mw := match Atoi (Getenv env "MAX_CHROME_WORKERS") with
             | Some val => if decide (0 < val) then val else 20
             | None => 20 end).
  set (s0 := {| heap := []; workerPool := []; maxWorkers := mw |}).
  assert (0 < mw) as Hmw.
  { subst mw. repeat (case_decide || case_match); lia. }
  pose proof (initLoop_rest clock (Z.to_nat (maxWorkers s0)) 0
                (with_registry (Z.to_nat (maxWorkers s0))
                   (replicate (Z.to_nat (maxWorkers s0)) None)
                   (with_pool (heap s0) [] s0))) as Hrest.
  fold (initializeWorkerPool clock s0) in Hrest.
  unfold restView in Hrest. simpl in Hrest.
  injection Hrest as Hm Hso Hsc Ha Ht Hf Ho Hcache Hen Hdur Hcalls.
  unfold counters. rewrite Hm, Hsc, Hcache, Ha, Ht, Hf, Ho, Hen, Hdur.
  rewrite initializeWorkerPool_pool, initializeWorkerPool_cap,
    initializeWorkerPool_workers.
  split; [done|]. split; [done|]. split; [done|]. split.
  { unfold initializeWorkerPool. by rewrite initLoop_heap_length. }
  split; [done|]. split.
  { unfold initializeWorkerPool. by apply initLoop_Forall. }
  split; [done|]. split; [done|]. split; [done|]. split.
  { intros k Hk Hg. subst mw. rewrite Hg, Atoi_pretty.
    - by rewrite decide_True by lia.
    - unfold minInt64 in *. lia. }
  split.
  { intros Hnone. subst mw. by rewrite Hnone. }
  split.
  { rewrite negb_false_iff, orb_true_iff, !bool_decide_eq_true. done. }
  split.
  - intros k Hk Hb Hg. rewrite Hg. by apply secondsOr_pretty.
  - intros Hnone. rewrite secondsOr_default by auto. done.
Qed.

Lemma configured_timeouts_eq env now r s w s1 w1 job :
  requestPrelude env now r s w = NeedWorker s1 w1 job →
  jobTimeout job = secondsOr (Getenv env "SCREENSHOT_TIMEOUT") (45 * Second)
  ∧ jobWorkerTimeout job = secondsOr (Getenv env "WORKER_TIMEOUT") (15 * Second).
Proof.
  unfold requestPrelude, deferredRecover. simpl.
  repeat (case_decide || case_match); intros; by simplify_eq/=.
Qed.


(** X13.  The handler answers 503 only when the wait for a worker lasted
    at least the wait budget or the shutdown channel was closed. *)
Theorem busy_only_after_budget env o r s s' w' :
  HandleScreenshot env o r s newResponseWriter = Some (s', w') →
  status w' = 503 →
  secondsOr (Getenv env "WORKER_TIMEOUT") (15 * Second) ≤ parked o
  ∨ shutdownChan s = true.
Proof.
  unfold HandleScreenshot.
  pose proof (requestPrelude_metrics env (lookupTime o) r s) as Hp.
  pose proof (requestPrelude_frame env (lookupTime o) r s newResponseWriter) as Hf.
  destruct (requestPrelude env (lookupTime o) r s newResponseWriter)
    as [s0 w0|s1 w1 job|] eqn:Hpre; [| |done].
  - intros [= <- <-] Hs. destruct Hp as (_ & _ & [?|?]); congruence.
  - destruct (configured_timeouts_eq env (lookupTime o) r s newResponseWriter s1 w1 job Hpre)
      as [_ Hwt].
    simpl in Hf. unfold poolView in Hf. injection Hf as _ _ _ _ _ _ Hsc.
    destruct Hp as (_ & ->).
    unfold acquireWorker.
    destruct (getWorker (pick o) (jobWorkerTimeout job) (parked o) s1)
      as [[s2 [worker|err]]|] eqn:Hget; [| |done].
    + pose proof (renderAndRespond_metrics (browser o) (storeTime o) (releaseTime o)
                    job worker s2) as Hr.
      destruct (renderAndRespond _ _ _ _ _ _ _) as [s3 w3].
      intros [= <- <-] Hs. destruct Hr as (_ & _ & _ & Hcases).
      destruct Hcases as [(? & _)|[(? & _)|(? & _)]]; congruence.
    + intros _ _. apply getWorker_frame in Hget as [_ [[_ Hle]|[_ Hc]]].
      * left. by rewrite <- Hwt.
      * right. by rewrite <- Hsc.
Qed.

End more_config.

(** ** The shape of a cache key *)

Section more_key.

Lemma EncodeToString_length (bs : list Z) :
  String.length (EncodeToString bs) = (2 * length bs)%nat.
Proof. induction bs as [|b bs IH]; simpl; [done|]. rewrite IH. lia. Qed.

Lemma le_bytes_length n x : length (MD5.le_bytes n x) = n.
Proof. unfold MD5.le_bytes. by rewrite length_fmap, length_seq. Qed.

Lemma Sum_length msg : length (MD5.Sum msg) = 16%nat.
Proof.
  unfold MD5.Sum. destruct (MD5.blocks _ _ _) as [[[a b] c] d].
  by rewrite !length_app, !le_bytes_length.
Qed.

Lemma hexDigit_hex n : 0 ≤ n < 16 → occurs (hexDigit n) "0123456789abcdef".
Proof.
  intros Hn.
  assert (n = 0 ∨ n = 1 ∨ n = 2 ∨ n = 3 ∨ n = 4 ∨ n = 5 ∨ n = 6 ∨ n = 7
          ∨ n = 8 ∨ n = 9 ∨ n = 10 ∨ n = 11 ∨ n = 12 ∨ n = 13 ∨ n = 14
          ∨ n = 15) as Hc by lia.
  repeat (destruct Hc as [->|Hc]; [vm_compute; tauto|]). subst. vm_compute. tauto.
Qed.

Lemma EncodeToString_chars (bs : list Z) c :
  Forall isByte bs → occurs c (EncodeToString bs) → occurs c "0123456789abcdef".
Proof.
  unfold isByte. induction 1 as [|b bs Hb _ IH]; simpl; [done|].
  intros [->|[->|Hc]]; [| |by apply IH].
  - apply hexDigit_hex. split; [apply Z.div_pos; lia|apply Z.div_lt_upper_bound; lia].
  - apply hexDigit_hex. by apply Z.mod_pos_bound.
Qed.

(** X14.  A cache key is always 32 characters, each a lower-case
    hexadecimal digit. *)
Theorem cache_key_format url width height :
  String.length (getCacheKey url width height) = 32%nat
  ∧ ∀ c, occurs c (getCacheKey url width height) → occurs c "0123456789abcdef".
Proof.
  unfold getCacheKey. split.
  - by rewrite EncodeToString_length, Sum_length.
  - intros c. apply EncodeToString_chars, Sum_isByte.
Qed.

End more_key.

(** ** More properties at work on the demonstration service *)

Section more_demonstration.


Lemma demo_int64 : int64 (activeRequests demoServer).
Proof. by vm_compute. Defined.

Lemma gauge_balanced_witness :
  activeRequests demoAnswer.1 = activeRequests demoServer
  ∧ totalRequests demoAnswer.1 = add64 (totalRequests demoServer) 1
  ∧ wroteHeader demoAnswer.2 = true.
Proof.
  exact (gauge_balanced ∅ demoOracle demoRequest demoServer demoAnswer.1 demoAnswer.2
           demo_int64 demo_answer).
Defined.

Lemma busy_answer :
  HandleScreenshot ∅ busyOracle demoRequest demoSaturated newResponseWriter
    = Some (busyAnswer.1, busyAnswer.2).
Proof. vm_compute. reflexivity. Defined.

Lemma busy_status : status busyAnswer.2 = 503.
Proof. vm_compute. reflexivity. Defined.

Lemma failure_accounting_witness :
  failedRequests busyAnswer.1 = add64 (failedRequests demoSaturated) 1
  ∧ timeoutRequests busyAnswer.1 = add64 (timeoutRequests demoSaturated) 1.
Proof.
  exact (proj2 (proj2 (failure_accounting ∅ busyOracle demoRequest demoSaturated
                         busyAnswer.1 busyAnswer.2 busy_answer))
           (or_intror busy_status)).
Defined.

Lemma demo_room : (length (workerPool demoServer) ≤ workerPoolCap demoServer)%nat.
Proof. vm_compute. lia. Defined.

Lemma worker_returned_witness :
  ∃ s' w' rest,
    HandleScreenshot ∅ demoOracle demoRequest demoServer newResponseWriter = Some (s', w')
    ∧ workerPool demoServer = 0%nat :: rest
    ∧ workerPool s' = rest ++ [0%nat]
    ∧ length (workerPool s') = length (workerPool demoServer)
    ∧ busy <$> heap s' !! 0%nat = (λ _, false) <$> heap demoServer !! 0%nat
    ∧ lastUsed <$> heap s' !! 0%nat
        = (λ _, releaseTime demoOracle) <$> heap demoServer !! 0%nat
    ∧ ∀ p, p ≠ 0%nat → heap s' !! p = heap demoServer !! p.
Proof.
  exact (worker_returned ∅ demoOracle demoRequest demoServer (parkedIn demoServer)
           newResponseWriter demoJob (afterRecv (parkedIn demoServer)) 0%nat
           demo_prelude demo_getWorker demo_room).
Defined.

Lemma demo_url : queryGet demoRequest "url" ≠ EmptyString.
Proof. by vm_compute. Defined.

Lemma later_enabled : cacheEnabled demoAnswer.1 = true.
Proof. vm_compute. reflexivity. Defined.

Lemma later_hit :
  cacheGet (lookupTime laterOracle)
    (getCacheKey (queryGet demoRequest "url")
       (dimensionOr (queryGet demoRequest "width") 1280 3840)
       (dimensionOr (queryGet demoRequest "height") 720 2160)) demoAnswer.1
    = Some onePixel.
Proof. vm_compute. reflexivity. Defined.

Lemma cache_hit_takes_no_worker_witness :
  ∃ s' w',
    HandleScreenshot ∅ laterOracle demoRequest demoAnswer.1 newResponseWriter
      = Some (s', w')
    ∧ status w' = 200 ∧ body w' = onePixel
    ∧ poolView s' = poolView demoAnswer.1
    ∧ screenCache s' = screenCache demoAnswer.1
    ∧ calls s' = calls demoAnswer.1
        ++ [CallCacheLoad (getCacheKey (queryGet demoRequest "url")
              (dimensionOr (queryGet demoRequest "width") 1280 3840)
              (dimensionOr (queryGet demoRequest "height") 720 2160))].
Proof.
  exact (cache_hit_takes_no_worker ∅ laterOracle demoRequest demoAnswer.1 onePixel
           demo_url later_enabled later_hit).
Defined.

Lemma demo_capture :
  outcome (captureScreenshot (browser demoOracle) 0%nat (jobUrl demoJob)
             (jobWidth demoJob) (jobHeight demoJob) (jobTimeout demoJob))
    = CaptureReturn onePixel None.
Proof. vm_compute. reflexivity. Defined.

Lemma demo_enabled : cacheEnabled demoServer = true.
Proof. vm_compute. reflexivity. Defined.

Lemma demo_duration : cacheDuration demoServer ≤ maxInt64.
Proof. by vm_compute. Defined.

Lemma demo_pixel : onePixel ≠ [].
Proof. done. Defined.

Lemma capture_then_hit_witness :
  ∃ s' w',
    HandleScreenshot ∅ demoOracle demoRequest demoServer newResponseWriter = Some (s', w')
    ∧ body w' = onePixel
    ∧ ∀ env' o',
        storeTime demoOracle ≤ lookupTime o' →
        lookupTime o' - storeTime demoOracle < cacheDuration demoServer →
        answeredPNG (HandleScreenshot env' o' demoRequest s' newResponseWriter)
          "HIT" onePixel (cacheDuration demoServer).
Proof.
  exact (capture_then_hit ∅ demoOracle demoRequest demoServer (parkedIn demoServer)
           newResponseWriter demoJob (afterRecv (parkedIn demoServer)) 0%nat onePixel
           demo_prelude demo_getWorker demo_capture demo_pixel demo_enabled
           demo_duration).
Defined.

Lemma demo_parked : 1%nat ∈ workerPool (server demoSys3).
Proof. vm_compute. apply list_elem_of_here. Defined.

Lemma demo_held : 0%nat ∈ checkedOut demoSys3.
Proof. vm_compute. apply list_elem_of_here. Defined.

Lemma busy_marks_checked_out_witness :
  busy <$> heap (server demoSys3) !! 1%nat = Some false
  ∧ busy <$> heap (server demoSys3) !! 0%nat = Some true.
Proof.
  split.
  - exact (proj1 (busy_marks_checked_out ∅ demoClock demoConfig demoSys3
                    eq_refl eq_refl eq_refl demo_reachable 1%nat) demo_parked).
  - exact (proj2 (busy_marks_checked_out ∅ demoClock demoConfig demoSys3
                    eq_refl eq_refl eq_refl demo_reachable 0%nat) demo_held).
Defined.







Lemma demo_two : Getenv demoEnv "MAX_CHROME_WORKERS" = pretty 2.
Proof. vm_compute. reflexivity. Defined.

Lemma init_state_witness : maxWorkers (init demoEnv demoClock) = 2.
Proof.
  pose proof (init_state demoEnv demoClock) as H. cbv zeta in H.
  destruct H as (_ & _ & _ & _ & _ & _ & _ & _ & _ & H & _).
  refine (H 2 _ demo_two). by vm_compute.
Defined.



Lemma busy_only_after_budget_witness :
  secondsOr (Getenv ∅ "WORKER_TIMEOUT") (15 * Second) ≤ parked busyOracle
  ∨ shutdownChan demoSaturated = true.
Proof.
  exact (busy_only_after_budget ∅ busyOracle demoRequest demoSaturated
           busyAnswer.1 busyAnswer.2 busy_answer busy_status).
Defined.

Lemma cache_key_format_witness :
  String.length (getCacheKey "https://example.com" 1280 720) = 32%nat.
Proof. exact (proj1 (cache_key_format "https://example.com" 1280 720)). Defined.

End more_demonstration.
